(** * gemmi.py: sequential image filenames and the command-line run

    A shallow embedding of [src/gemmi.py].  Python [str] values are
    sequences of Unicode code points, modelled as [list N]; Python [int]
    values that arise here are non-negative and unbounded, modelled as [N].
    The directory scan of [next_image_filename] is modelled on an explicit
    listing, the file system as a finite map from paths to nodes, and the
    script body as a small state-and-exception monad. *)

From Stdlib Require Import NArith List String Ascii Lia Permutation.
From stdpp Require Import gmap list.

Local Open Scope N_scope.

(** ** Strings *)

Abbreviation str := (list N) (only parsing).

(** An ASCII literal as a Python string. *)
Definition lit (s : string) : str :=
  List.map N_of_ascii (list_ascii_of_string s).

Definition NEWLINE : N := 10.

(** ** The pattern [^{prefix}(\d+){ext}$] *)

Section Scan.

(** [\d] on a [str] pattern and [int()] accept every character of the
    Unicode category Nd.  The ASCII part of that table is fixed; the part
    above U+007F comes from the interpreter's Unicode database and is a
    parameter: [nd_value c] is the decimal value of [c] when [c] is such
    a digit. *)
Variable nd_value : N -> option N.

Definition digit_value (c : N) : option N :=
  if (48 <=? c) && (c <=? 57) then Some (c - 48)
  else if c <? 128 then None
  else nd_value c.

Definition is_digit (c : N) : bool :=
  match digit_value c with Some _ => true | None => false end.

(** [re.escape(s)] matches the literal [s]: consume it from the front of
    the subject and return what follows. *)
Fixpoint match_literal (s subject : str) : option str :=
  match s, subject with
  | [], _ => Some subject
  | c :: s', d :: subject' =>
      if N.eqb c d then match_literal s' subject' else None
  | _ :: _, [] => None
  end.

(** [$] without [re.MULTILINE]: succeeds at the end of the subject and
    also just before a newline that is the last character. *)
Definition match_dollar (subject : str) : bool :=
  match subject with
  | [] => true
  | [c] => N.eqb c NEWLINE
  | _ => false
  end.

(** [{ext}$] *)
Definition match_ext_end (ext subject : str) : bool :=
  match match_literal ext subject with
  | Some rest => match_dollar rest
  | None => false
  end.

(** [(\d+){ext}$]: the group is greedy, so a digit is first followed by
    an attempt to take more digits, and the group is closed only when
    that attempt fails.  Returns the text of group 1. *)
Fixpoint match_group_ext_end (ext subject : str) : option str :=
  match subject with
  | [] => None
  | c :: subject' =>
      if is_digit c then
        match match_group_ext_end ext subject' with
        | Some g => Some (c :: g)
        | None => if match_ext_end ext subject' then Some [c] else None
        end
      else None
  end.

(** [pattern.match(fname)], as [m.group(1)] when there is a match. *)
Definition pattern_match (prefix ext fname : str) : option str :=
  match match_literal prefix fname with
  | Some rest => match_group_ext_end ext rest
  | None => None
  end.

(** ** [int] and [str] *)

(** [int(s)] for a string of decimal digits.  The interpreter's bound on
    the length of converted digit strings (4300 by default) is far above
    what a filename can hold and is left out. *)
Definition py_int (s : str) : N :=
  fold_left (fun acc c => 10 * acc + default 0 (digit_value c)) s 0.

(** [str(n)]: decimal, most significant digit first, no leading zero. *)
Fixpoint py_str_fuel (fuel : nat) (n : N) : str :=
  match fuel with
  | O => []
  | S fuel' =>
      if n <? 10 then [48 + n]
      else py_str_fuel fuel' (n / 10) ++ [48 + n mod 10]
  end.

Definition py_str (n : N) : str :=
  py_str_fuel (S (N.to_nat (N.log2 n))) n.

(** ** The scan of [next_image_filename] *)

(** One iteration of the [for fname in os.listdir(directory)] loop. *)
Definition scan_step (prefix ext : str) (max_index : N) (fname : str) : N :=
  match pattern_match prefix ext fname with
  | Some g => N.max max_index (py_int g)
  | None => max_index
  end.

(** The loop, started with [max_index = 0]. *)
Definition scan (prefix ext : str) (listing : list str) : N :=
  fold_left (scan_step prefix ext) listing 0.

(** [f"{prefix}{next_index}{ext}"] *)
Definition format_name (prefix : str) (next_index : N) (ext : str) : str :=
  prefix ++ py_str next_index ++ ext.

(** The value [next_image_filename] returns when [os.listdir] yields
    [listing]. *)
Definition next_name (prefix ext : str) (listing : list str) : str :=
  let max_index := scan prefix ext listing in
  let next_index := max_index + 1 in
  format_name prefix next_index ext.

End Scan.

(** ** Prompt text *)

(** [str.isspace] per character, as used by [str.strip()]. *)
Definition is_space (c : N) : bool :=
  ((9 <=? c) && (c <=? 13)) || ((28 <=? c) && (c <=? 32))
  || N.eqb c 133 || N.eqb c 160 || N.eqb c 5760
  || ((8192 <=? c) && (c <=? 8202))
  || N.eqb c 8232 || N.eqb c 8233 || N.eqb c 8239 || N.eqb c 8287
  || N.eqb c 12288.

Fixpoint lstrip (s : str) : str :=
  match s with
  | c :: s' => if is_space c then lstrip s' else s
  | [] => []
  end.

Definition strip (s : str) : str := rev (lstrip (rev (lstrip s))).

(** [sep.join(lines)] *)
Fixpoint join (sep : str) (lines : list str) : str :=
  match lines with
  | [] => []
  | [l] => l
  | l :: ls => l ++ sep ++ join sep ls
  end.

(** ** Images, files and the outside world *)

Definition BANNER_WIDTH : N := 1200.
Definition BANNER_HEIGHT : N := 628.

(** A bitmap is opaque; only its dimensions are observed. *)
Record image := Image { width : N; height : N }.

Inductive content :=
| Picture (img : image)
| Truncated              (* opened for writing and never completed *)
| Other.

(** A path names a regular file or a directory; a directory holds its
    entries in the order [os.listdir] enumerates them. *)
Inductive node :=
| RegularFile
| Directory (entries : list (str * content)).

Inductive exn :=
| EOFError
| FileExistsError
| FileNotFoundError
| NotADirectoryError
| ValueError
| ExternalError          (* raised inside google-genai or PIL *)
| OSError
| UnicodeEncodeError
| SystemExit (code : N).

(** [except Exception] does not catch [SystemExit]. *)
Definition is_Exception (e : exn) : bool :=
  match e with SystemExit _ => false | _ => true end.

Inductive level := INFO | ERROR.

Inductive event :=
| Stdout (text : str)                  (* print(...) *)
| Log (lvl : level) (fmt : string)     (* logger.info / error / exception *)
| Input                                (* one call of input() *)
| ApiRequest (api_key prompt : str).   (* client.models.generate_content *)

(** One part of [response.candidates[0].content.parts]: [inline_data] is
    [None], or holds bytes that [Image.open] decodes or rejects. *)
Inductive part :=
| TextPart
| InlineData (decoded : option image).

Inductive response :=
| RequestFailed                 (* generate_content raised *)
| NoParts                       (* candidates[0].content.parts raised *)
| Parts (parts : list part).

(** How [image.save(path)] can end.  PIL chooses the format from the
    extension before it opens the file; it then opens the file for
    writing, which empties a file that exists; when writing fails it
    removes the file again only if the file did not exist before. *)
Inductive save_result :=
| Written
| UnknownExtension       (* ValueError, before the file is opened *)
| NotOpened              (* OSError, the file is not opened *)
| NotCompleted.          (* OSError after the file was opened *)

(** What the run does not control. *)
Record world := World {
  environ_key : option str;
    (* GEMINI_API_KEY in os.environ when the process starts *)
  dotenv_file : option (option str);
    (* GEMINI_API_KEY.env: absent, or the value it assigns to the key *)
  client_ok : str -> bool;
    (* genai.Client(api_key=...) constructs *)
  respond : str -> str -> response;
    (* the provider's answer to a prompt under an API key *)
  stdout_encodes : N -> bool;
    (* the encoding of sys.stdout has the character; asked only for
       characters above U+007F *)
  resize_ok : image -> bool;
    (* image.resize can load the pixel data and resample it *)
  save_outcome : str -> str -> image -> save_result;
    (* how image.save ends for an entry of a directory *)
  save_elsewhere : gmap str node -> str -> image
                   -> save_result * gmap str node
    (* how image.save ends, and what it leaves, for a path that the
       operating system has to resolve *)
}.

Record state := State {
  stdin : list str;          (* lines still to be read, newline removed *)
  fs : gmap str node;
  trace : list event         (* oldest first *)
}.

(** ** Computations that may raise *)

Inductive outcome (A : Type) :=
| Return (a : A)
| Raise (e : exn).
Arguments Return {A} a.
Arguments Raise {A} e.

Definition M (A : Type) : Type := state -> outcome A * state.

Definition ret {A} (a : A) : M A := fun st => (Return a, st).

Definition bind {A B} (m : M A) (k : A -> M B) : M B :=
  fun st =>
    match m st with
    | (Return a, st') => k a st'
    | (Raise e, st') => (Raise e, st')
    end.

Definition raise {A} (e : exn) : M A := fun st => (Raise e, st).

(** [try: body  except Exception as e: handler(e)] *)
Definition try_except {A} (body : M A) (handler : exn -> M A) : M A :=
  fun st =>
    match body st with
    | (Raise e, st') =>
        if is_Exception e then handler e st' else (Raise e, st')
    | r => r
    end.

#[global] Instance M_ret : MRet M := @ret.
#[global] Instance M_bind : MBind M := fun A B k m => bind m k.

Definition emit (ev : event) : M unit :=
  fun st => (Return tt, {| stdin := stdin st; fs := fs st;
                           trace := trace st ++ [ev] |}).

(** A text can be written to standard output when the encoding has each
    of its characters; ASCII is in every encoding Python uses there. *)
Definition encodable (w : world) (text : str) : bool :=
  forallb (fun c => (c <? 128) || stdout_encodes w c) text.

(** [print(text)]: raises [UnicodeEncodeError], writing nothing, when the
    text cannot be encoded.  Standard output is taken to stay open. *)
Definition print (w : world) (text : str) : M unit :=
  if encodable w text then emit (Stdout text) else raise UnicodeEncodeError.

(** [logging] reports an error of a handler on standard error and goes
    on: the logger calls do not raise. *)
Definition logger_info (fmt : string) : M unit := emit (Log INFO fmt).
Definition logger_error (fmt : string) : M unit := emit (Log ERROR fmt).
Definition logger_exception (fmt : string) : M unit := emit (Log ERROR fmt).

Definition sys_exit {A} (code : N) : M A := raise (SystemExit code).

(** [image.resize((width, height), Image.LANCZOS)]: a new image of exactly
    the requested size, or an error when the pixel data, which
    [Image.open] reads lazily, cannot be loaded. *)
Definition resize (w : world) (img : image) (width' height' : N) : M image :=
  if resize_ok w img
  then mret {| width := width'; height := height' |}
  else raise OSError.

Definition get_fs : M (gmap str node) := fun st => (Return (fs st), st).

Definition put_fs (m : gmap str node) : M unit :=
  fun st => (Return tt, {| stdin := stdin st; fs := m; trace := trace st |}).

(** [input()]: the next line of standard input, [EOFError] at its end. *)
Definition input : M str :=
  fun st =>
    let tr := trace st ++ [Input] in
    match stdin st with
    | [] => (Raise EOFError, {| stdin := []; fs := fs st; trace := tr |})
    | line :: rest =>
        (Return line, {| stdin := rest; fs := fs st; trace := tr |})
    end.

(** ** File system calls *)

(** [os.makedirs(directory, exist_ok=True)]: creates the directory when
    nothing has that path, leaves an existing directory alone, and raises
    when the path is a regular file.  Permissions and parent components
    are not modelled. *)
Definition makedirs (directory : str) : M unit :=
  m ← get_fs;
  match m !! directory with
  | None => put_fs (<[directory := Directory []]> m)
  | Some (Directory _) => mret tt
  | Some RegularFile => raise FileExistsError
  end.

(** [os.listdir(directory)] *)
Definition listdir (directory : str) : M (list str) :=
  m ← get_fs;
  match m !! directory with
  | Some (Directory entries) => mret (entries.*1)
  | Some RegularFile => raise NotADirectoryError
  | None => raise FileNotFoundError
  end.

(** Writing entry [name] of a directory: replaced in place when present,
    added otherwise. *)
Fixpoint store (name : str) (c : content) (entries : list (str * content))
  : list (str * content) :=
  match entries with
  | [] => [(name, c)]
  | (n, c') :: entries' =>
      if decide (n = name) then (name, c) :: entries'
      else (n, c') :: store name c entries'
  end.

(** An entry that was opened for writing and not completed: a file of
    that name is left emptied, nothing appears when there was none. *)
Fixpoint truncate (name : str) (entries : list (str * content))
  : list (str * content) :=
  match entries with
  | [] => []
  | (n, c) :: entries' =>
      if decide (n = name) then (n, Truncated) :: entries'
      else (n, c) :: truncate name entries'
  end.

Definition SEP : N := 47.

Definition starts_with_sep (s : str) : bool :=
  match s with
  | c :: _ => N.eqb c SEP
  | [] => false
  end.

Definition ends_with_sep (s : str) : bool :=
  match last s with
  | Some c => N.eqb c SEP
  | None => false
  end.

(** [os.path.join(a, b)] on POSIX. *)
Definition os_path_join (a b : str) : str :=
  if starts_with_sep b then b
  else match a with
       | [] => b
       | _ :: _ => if ends_with_sep a then a ++ b else a ++ [SEP] ++ b
       end.

(** A name that [os.path.join(directory, name)] turns into the entry of
    that name in [directory]: not empty, without separator or NUL, and
    neither [.] nor [..]. *)
Definition plain_name (name : str) : bool :=
  match name with
  | [] => false
  | _ :: _ =>
      forallb (fun c => negb (N.eqb c SEP) && negb (N.eqb c 0)) name
      && negb (bool_decide (name = [46]))
      && negb (bool_decide (name = [46; 46]))
  end.

Definition raise_for (r : save_result) : M unit :=
  match r with
  | Written => mret tt
  | UnknownExtension => raise ValueError
  | NotOpened | NotCompleted => raise OSError
  end.

(** [image.save(os.path.join(directory, filename))].  For a plain name the
    path is the entry [filename] of [directory]; any other path is left
    to the operating system, and what the call then does to the file
    system is not constrained. *)
Definition image_save (w : world) (directory filename : str) (img : image)
  : M unit :=
  m ← get_fs;
  if plain_name filename then
    match save_outcome w directory filename img with
    | UnknownExtension => raise ValueError
    | NotOpened => raise OSError
    | (Written | NotCompleted) as r =>
        match m !! directory with
        | Some (Directory entries) =>
            match r with
            | Written =>
                put_fs (<[directory :=
                            Directory (store filename (Picture img) entries)]> m)
            | _ =>
                put_fs (<[directory :=
                            Directory (truncate filename entries)]> m);;
                raise OSError
            end
        | Some RegularFile => raise NotADirectoryError
        | None => raise FileNotFoundError
        end
    end
  else
    let (r, m') := save_elsewhere w m (os_path_join directory filename) img in
    put_fs m';;
    raise_for r.

(** ** [next_image_filename] *)

Definition next_image_filename (nd_value : N -> option N)
    (directory prefix ext : str) : M str :=
  makedirs directory;;
  listing ← listdir directory;
  mret (next_name nd_value prefix ext listing).

(** ** [GeminiImageGenerator] *)

Record generator := Generator { gen_api_key : str; model_name : str }.

Definition GeminiImageGenerator (w : world) (api_key : str) : M generator :=
  try_except
    (if client_ok w api_key
     then logger_info "Initialized GeminiImageGenerator with model: %s";;
          mret {| gen_api_key := api_key;
                  model_name := lit "gemini-2.0-flash-exp-image-generation" |}
     else raise ExternalError)
    (fun e => logger_exception "Failed to initialize Gemini client: %s";;
              raise e).

(** The [for part in ...parts] loop of [generate_image]. *)
Fixpoint first_image (parts : list part) : M image :=
  match parts with
  | [] => raise ValueError
  | TextPart :: parts' => first_image parts'
  | InlineData None :: _ => raise ExternalError
  | InlineData (Some img) :: _ =>
      logger_info "Image generated successfully (original size: %sx%s).";;
      mret img
  end.

Definition generate_image (w : world) (gen : generator) (prompt : str)
  : M image :=
  try_except
    (logger_info "Sending image generation request with prompt: %s";;
     emit (ApiRequest (gen_api_key gen) prompt);;
     match respond w (gen_api_key gen) prompt with
     | RequestFailed => raise ExternalError
     | NoParts =>
         logger_info "Received response from Gemini API.";;
         raise ExternalError
     | Parts parts =>
         logger_info "Received response from Gemini API.";;
         first_image parts
     end)
    (fun e => logger_exception "Error during image generation: %s";;
              raise e).

Definition save_image (w : world) (img : image) (filename : str) : M unit :=
  try_except
    (let images_dir := lit "images" in
     makedirs images_dir;;
     image_save w images_dir filename img;;
     logger_info "Image saved to %s (%sx%s)")
    (fun e => logger_exception "Failed to save image: %s";;
              raise e).

(** ** The script body *)

(** [load_dotenv("GEMINI_API_KEY.env")] followed by
    [os.getenv("GEMINI_API_KEY")]: a variable already in the environment is
    kept, otherwise the file's assignment, if any, is used; a missing file
    is not an error. *)
Definition load_api_key (w : world) : option str :=
  match environ_key w with
  | Some v => Some v
  | None =>
      match dotenv_file w with
      | Some (Some v) => Some v
      | _ => None
      end
  end.

(** [not API_KEY] *)
Definition key_missing (k : option str) : bool :=
  match k with
  | None | Some [] => true
  | Some (_ :: _) => false
  end.

(** [while True: line = input(); if not line: break; lines.append(line)].
    Every iteration consumes a line or raises, so the loop body runs at
    most once more than there are lines on standard input; [fuel] bounds
    the number of iterations. *)
Fixpoint while_True (fuel : nat) (lines : list str) : M (list str) :=
  match fuel with
  | O => mret lines
  | S fuel' =>
      line ← input;
      match line with
      | [] => mret lines
      | _ :: _ => while_True fuel' (lines ++ [line])
      end
  end.

Definition read_lines : M (list str) :=
  fun st => while_True (S (length (stdin st))) [] st.

Definition ENTER_PROMPT : str :=
  lit "Enter your image prompt (finish by entering an empty line):".

(** ["Generating image…"], ending in U+2026. *)
Definition GENERATING : str := lit "Generating image" ++ [8230].

(** [f"Saved as {filename} ({BANNER_WIDTH}×{BANNER_HEIGHT})"], with
    U+00D7 between the numbers. *)
Definition saved_message (filename : str) : str :=
  lit "Saved as " ++ filename ++ lit " (" ++ py_str BANNER_WIDTH
  ++ [215] ++ py_str BANNER_HEIGHT ++ lit ")".

(** Step 2 of the script up to the assignment of [prompt]. *)
Definition collect_prompt (w : world) : M str :=
  print w ENTER_PROMPT;;
  lines ← read_lines;
  mret (strip (join [NEWLINE] lines)).

(** The body of the [try] block. *)
Definition generate_and_save (nd_value : N -> option N) (w : world)
    (API_KEY prompt : str) : M unit :=
  print w GENERATING;;
  gen ← GeminiImageGenerator w API_KEY;
  image0 ← generate_image w gen prompt;
  image1 ← resize w image0 BANNER_WIDTH BANNER_HEIGHT;
  logger_info "Resized image to fixed banner size: %sx%s";;
  filename ← next_image_filename nd_value
               (lit "images") (lit "img") (lit ".png");
  save_image w image1 filename;;
  print w (saved_message filename).

Definition main (nd_value : N -> option N) (w : world) : M unit :=
  let API_KEY := load_api_key w in
  if key_missing API_KEY then
    logger_error "GEMINI_API_KEY not found in GEMINI_API_KEY.env. Please add it and try again.";;
    sys_exit 1
  else
    prompt ← collect_prompt w;
    match prompt with
    | [] =>
        logger_error "No prompt provided; exiting.";;
        sys_exit 1
    | _ :: _ =>
        try_except
          (generate_and_save nd_value w (default [] API_KEY) prompt)
          (fun e => logger_error "Image generation process failed: %s";;
                    sys_exit 1)
    end.

(** The exit status of the interpreter: 0 when the script runs to its end,
    the argument of [sys.exit], and 1 for any other uncaught exception. *)
Definition exit_status {A} (o : outcome A) : N :=
  match o with
  | Return _ => 0
  | Raise (SystemExit code) => code
  | Raise _ => 1
  end.

Definition run (nd_value : N -> option N) (w : world) (st : state)
  : N * state :=
  let (o, st') := main nd_value w st in (exit_status o, st').

(** ** The specification's reading, for comparison *)

Section Series.

Variable nd_value : N -> option N.

(** A filename of the series in the specification's words: exactly
    [prefix], then one or more decimal digits [ds], then [ext], with
    nothing before or after. *)
Definition series_name (prefix ext fname ds : str) : Prop :=
  fname = prefix ++ ds ++ ext
  /\ ds <> []
  /\ Forall (fun c => is_digit nd_value c = true) ds.

(** The same test, computed: the digit group of [fname] when it is a
    name of the series. *)
Definition series_group (prefix ext fname : str) : option str :=
  match match_literal prefix fname with
  | Some rest =>
      let k := (length rest - length ext)%nat in
      let ds := take k rest in
      if decide (drop k rest = ext)
      then match ds with
           | [] => None
           | _ :: _ => if forallb (is_digit nd_value) ds then Some ds else None
           end
      else None
  | None => None
  end.

(** No entry is a name of the series followed by one newline. *)
Definition no_newline_twin (prefix ext : str) (listing : list str) : Prop :=
  forall fname fname' g,
    fname ∈ listing -> series_name prefix ext fname' g ->
    fname <> fname' ++ [NEWLINE].

(** The maximum over the names of the series, 0 when there is none. *)
Definition series_max (prefix ext : str) (listing : list str) : N :=
  foldr N.max 0 (py_int nd_value <$> omap (series_group prefix ext) listing).

(** The filename the specification asks for. *)
Definition series_next (prefix ext : str) (listing : list str) : str :=
  prefix ++ py_str (series_max prefix ext listing + 1) ++ ext.

End Series.

(** The two subjects that [{ext}$] accepts. *)
Definition ends (ext tail : str) : Prop :=
  tail = ext \/ tail = ext ++ [NEWLINE].

(** The lines accumulated up to the first empty line or the end of input. *)
Fixpoint lines_until_empty (inp : list str) : list str :=
  match inp with
  | [] => []
  | [] :: _ => []
  | line :: inp' => line :: lines_until_empty inp'
  end.

(** Whether an empty line occurs, and what standard input holds after the
    first one. *)
Fixpoint has_empty_line (inp : list str) : bool :=
  match inp with
  | [] => false
  | [] :: _ => true
  | _ :: inp' => has_empty_line inp'
  end.

Fixpoint after_empty_line (inp : list str) : list str :=
  match inp with
  | [] => []
  | [] :: inp' => inp'
  | _ :: inp' => after_empty_line inp'
  end.

(** The prompt in the specification's words: those lines joined by a
    newline, then trimmed. *)
Definition prompt_of_lines (inp : list str) : str :=
  strip (join [NEWLINE] (lines_until_empty inp)).

(** ** Observations on a run *)

Definition is_api_request (ev : event) : bool :=
  match ev with ApiRequest _ _ => true | _ => false end.

Definition is_input (ev : event) : bool :=
  match ev with Input => true | _ => false end.

(** Number of calls to the provider recorded in a trace. *)
Definition api_requests (tr : list event) : nat :=
  length (List.filter is_api_request tr).

(** Number of lines requested from standard input. *)
Definition input_requests (tr : list event) : nat :=
  length (List.filter is_input tr).

(** The provider calls recorded in a trace, oldest first, each with the
    API key and the prompt it carried. *)
Fixpoint requests_of (tr : list event) : list (str * str) :=
  match tr with
  | [] => []
  | ApiRequest api_key prompt :: tr' => (api_key, prompt) :: requests_of tr'
  | _ :: tr' => requests_of tr'
  end.

(** Entries of the output directory, none when it does not exist. *)
Definition entries_of (m : gmap str node) (directory : str)
  : list (str * content) :=
  match m !! directory with
  | Some (Directory entries) => entries
  | _ => []
  end.

(** The image every successful run stores. *)
Definition banner : image :=
  {| width := BANNER_WIDTH; height := BANNER_HEIGHT |}.

(** The first part with inline data, as the loop of [generate_image]
    meets it. *)
Fixpoint first_inline (parts : list part) : option (option image) :=
  match parts with
  | [] => None
  | TextPart :: parts' => first_inline parts'
  | InlineData decoded :: _ => Some decoded
  end.

(** The image the provider gives for a prompt, if it gives one. *)
Definition provided_image (w : world) (key prompt : str) : option image :=
  match respond w key prompt with
  | Parts parts =>
      match first_inline parts with
      | Some (Some img) => Some img
      | _ => None
      end
  | _ => None
  end.

(** The conditions under which the [try] block gets as far as a stored
    file: the first message can be printed, the client is constructed, the
    provider gives an image that can be resized, [images] is not a regular
    file, and the write of the banner under the next name succeeds. *)
Definition saves (nd_value : N -> option N) (w : world) (key prompt : str)
    (m : gmap str node) : bool :=
  stdout_encodes w 8230
  && client_ok w key
  && match provided_image w key prompt with
     | Some img =>
         resize_ok w img
         && match m !! lit "images" with
            | Some RegularFile => false
            | _ =>
                match save_outcome w (lit "images")
                        (next_name nd_value (lit "img") (lit ".png")
                           ((entries_of m (lit "images")).*1))
                        banner with
                | Written => true
                | _ => false
                end
            end
     | None => false
     end.

(** The same for a whole run: a key is loaded, a prompt is collected and
    is not empty, and the [try] block stores the file. *)
Definition stores_image (nd_value : N -> option N) (w : world) (st : state)
  : bool :=
  match load_api_key w with
  | Some (c :: key) =>
      has_empty_line (stdin st)
      && match prompt_of_lines (stdin st) with
         | [] => false
         | prompt => saves nd_value w (c :: key) prompt (fs st)
         end
  | _ => false
  end.

(** What a run leaves of the file system when it stores nothing: the file
    system as it was, or with the empty output directory created. *)
Definition nothing_written (before after : gmap str node) : Prop :=
  after = before
  \/ (before !! lit "images" = None
      /\ after = <[lit "images" := Directory []]> before).

(** What a run leaves when it stores the banner under the next name of
    the series. *)
Definition banner_written (nd_value : N -> option N)
    (before after : gmap str node) : Prop :=
  let entries := entries_of before (lit "images") in
  let filename := next_name nd_value (lit "img") (lit ".png") (entries.*1) in
  (filename ∉ entries.*1)
  /\ after = <[lit "images" :=
                Directory (entries ++ [(filename, Picture banner)])]> before.

(** Sample tables and inputs used to evaluate the definitions. *)

(** No digit above U+007F. *)
Definition ascii_only : N -> option N := fun _ => None.

(** ARABIC-INDIC DIGIT ZERO..NINE, U+0660..U+0669. *)
Definition arabic_indic : N -> option N :=
  fun c => if (1632 <=? c) && (c <=? 1641) then Some (c - 1632) else None.

Definition start_state (inp : list str) (m : gmap str node) : state :=
  {| stdin := inp; fs := m; trace := [] |}.

(** A provider that answers with a text part and a 512x512 image, a
    standard output that encodes everything, and a disk that accepts every
    write. *)
Definition sample_world (environ file_key : option str)
    (file_present : bool) : world :=
  {| environ_key := environ;
     dotenv_file := if file_present then Some file_key else None;
     client_ok := fun _ => true;
     respond := fun _ _ => Parts [TextPart; InlineData (Some (Image 512 512))];
     stdout_encodes := fun _ => true;
     resize_ok := fun _ => true;
     save_outcome := fun _ _ _ => Written;
     save_elsewhere := fun m _ _ => (Written, m) |}.

(** A world with the key in the environment, a provider that always gives
    the same answer, and a disk that accepts every write or completes
    none. *)
Definition fixed_world (answer : response) (disk : bool) : world :=
  {| environ_key := Some (lit "secret");
     dotenv_file := None;
     client_ok := fun _ => true;
     respond := fun _ _ => answer;
     stdout_encodes := fun _ => true;
     resize_ok := fun _ => true;
     save_outcome := fun _ _ _ => if disk then Written else NotCompleted;
     save_elsewhere := fun m _ _ => (Written, m) |}.


(** A world whose client cannot be constructed. *)
Definition no_client_world : world :=
  {| environ_key := Some (lit "bad");
     dotenv_file := None;
     client_ok := fun _ => false;
     respond := fun _ _ => NoParts;
     stdout_encodes := fun _ => true;
     resize_ok := fun _ => true;
     save_outcome := fun _ _ _ => Written;
     save_elsewhere := fun m _ _ => (Written, m) |}.

Definition two_images : gmap str node :=
  {[ lit "images" := Directory [(lit "img1.png", Other);
                                (lit "img2.png", Other)] ]}.

(** * Properties *)

(** ** The pattern *)

Lemma match_literal_spec (s subject rest : str) :
  match_literal s subject = Some rest <-> subject = s ++ rest.
Proof.
  revert subject. induction s as [|c s IH]; intros subject; simpl.
  - split; [intros [= ->]; reflexivity | intros ->; reflexivity].
  - destruct subject as [|d subject].
    + split; discriminate.
    + destruct (N.eqb_spec c d) as [->|Hne].
      * rewrite IH. split; [intros ->; reflexivity | intros [= ->]; reflexivity].
      * split; [discriminate | intros [= <- _]; contradiction].
Qed.

Lemma match_literal_app (s rest : str) : match_literal s (s ++ rest) = Some rest.
Proof. apply match_literal_spec. reflexivity. Qed.

Lemma match_dollar_spec (subject : str) :
  match_dollar subject = true <-> subject = [] \/ subject = [NEWLINE].
Proof.
  destruct subject as [|c [|d subject]]; simpl.
  - split; auto.
  - rewrite N.eqb_eq. split.
    + intros ->. right. reflexivity.
    + intros [H|[= ->]]; [discriminate | reflexivity].
  - split; [discriminate | intros [H|H]; discriminate].
Qed.

Lemma match_ext_end_spec (ext subject : str) :
  match_ext_end ext subject = true
  <-> subject = ext \/ subject = ext ++ [NEWLINE].
Proof.
  unfold match_ext_end.
  destruct (match_literal ext subject) as [rest|] eqn:E.
  - apply match_literal_spec in E. subst subject.
    rewrite match_dollar_spec. split.
    + intros [-> | ->]; [left; apply app_nil_r | right; reflexivity].
    + intros [H|H].
      * left. apply (app_inv_head ext). rewrite app_nil_r. exact H.
      * right. apply (app_inv_head ext). exact H.
  - split; [discriminate|].
    intros [-> | ->].
    + pose proof (match_literal_app ext []) as H.
      rewrite app_nil_r in H. congruence.
    + rewrite match_literal_app in E. discriminate.
Qed.

(** A list that is its own tail after one more element is constant. *)
Lemma snoc_eq_cons {A} (l : list A) (a b : A) : l ++ [a] = b :: l -> a = b.
Proof.
  revert b. induction l as [|x l IH]; intros b; simpl.
  - intros [= ->]. reflexivity.
  - intros [= -> H]. apply IH in H. exact H.
Qed.

Section PatternFacts.

Variable nd_value : N -> option N.

Local Abbreviation digit := (fun c => is_digit nd_value c = true).

Lemma newline_not_digit : is_digit nd_value NEWLINE = false.
Proof. reflexivity. Qed.

(** A subject accepted by [{ext}$] does not start with a digit group
    followed by another accepted subject: taking more digits than the
    name has cannot succeed. *)
Lemma ends_no_group (ext tail g rest : str) :
  g <> [] -> Forall digit g -> ends ext tail -> ends ext rest ->
  tail <> g ++ rest.
Proof.
  intros Hne Hd Ht Hr E.
  assert (Hlen : length tail = (length g + length rest)%nat)
    by (rewrite E, length_app; reflexivity).
  destruct g as [|d g]; [contradiction|]. simpl in Hlen.
  destruct Ht as [-> | ->], Hr as [-> | ->];
    rewrite ?length_app in Hlen; simpl in Hlen; try lia.
  assert (g = []) as -> by (destruct g; [reflexivity | simpl in Hlen; lia]).
  simpl in E. apply snoc_eq_cons in E. subst d.
  apply Forall_inv in Hd. rewrite newline_not_digit in Hd. discriminate.
Qed.

Lemma match_group_sound (ext subject g : str) :
  match_group_ext_end nd_value ext subject = Some g ->
  g <> [] /\ Forall digit g /\ exists tail, ends ext tail /\ subject = g ++ tail.
Proof.
  revert g. induction subject as [|c subject IH]; intros g; simpl.
  - discriminate.
  - destruct (is_digit nd_value c) eqn:Hc; [|discriminate].
    destruct (match_group_ext_end nd_value ext subject) as [g'|] eqn:E.
    + intros [= <-]. destruct (IH g' eq_refl) as (_ & Hd & tail & Ht & ->).
      repeat split; [discriminate | constructor; assumption |].
      exists tail. split; [assumption | reflexivity].
    + destruct (match_ext_end ext subject) eqn:Et; [|discriminate].
      intros [= <-]. apply match_ext_end_spec in Et.
      repeat split; [discriminate | constructor; [assumption | constructor] |].
      exists subject. split; [exact Et | reflexivity].
Qed.

Lemma match_group_complete (ext g tail : str) :
  g <> [] -> Forall digit g -> ends ext tail ->
  match_group_ext_end nd_value ext (g ++ tail) = Some g.
Proof.
  intros Hne Hd Ht. induction g as [|c g IH]; [contradiction|].
  apply Forall_cons in Hd as [Hc Hd]. simpl. rewrite Hc.
  destruct g as [|c' g].
  - simpl.
    destruct (match_group_ext_end nd_value ext tail) as [g'|] eqn:E.
    + apply match_group_sound in E as (Hne' & Hd' & rest & Hr & E).
      exfalso. exact (ends_no_group ext tail g' rest Hne' Hd' Ht Hr E).
    + apply match_ext_end_spec in Ht. rewrite Ht. reflexivity.
  - rewrite IH; [reflexivity | discriminate | assumption].
Qed.

(** [pattern.match] succeeds exactly on [prefix], a non-empty digit
    group, [ext], and then nothing or one final newline; group 1 is the
    digit group. *)
Lemma pattern_match_spec (prefix ext fname g : str) :
  pattern_match nd_value prefix ext fname = Some g
  <-> g <> [] /\ Forall digit g
      /\ exists tail, ends ext tail /\ fname = prefix ++ g ++ tail.
Proof.
  unfold pattern_match. split.
  - destruct (match_literal prefix fname) as [rest|] eqn:E; [|discriminate].
    apply match_literal_spec in E. subst fname. intros H.
    apply match_group_sound in H as (Hne & Hd & tail & Ht & ->).
    repeat split; try assumption. exists tail. split; [assumption|reflexivity].
  - intros (Hne & Hd & tail & Ht & ->).
    rewrite match_literal_app. apply match_group_complete; assumption.
Qed.

End PatternFacts.

(** ** [int] and [str] *)

Section NumberFacts.

Variable nd_value : N -> option N.

Local Abbreviation digit := (fun c => is_digit nd_value c = true).
Local Abbreviation ascii_digit := (fun c : N => 48 <= c <= 57).

Lemma ascii_digit_value (c : N) :
  48 <= c <= 57 -> digit_value nd_value c = Some (c - 48).
Proof.
  intros [H1 H2]. unfold digit_value.
  apply N.leb_le in H1, H2. rewrite H1, H2. reflexivity.
Qed.

Lemma ascii_digit_is_digit (c : N) : 48 <= c <= 57 -> digit c.
Proof.
  intros H. unfold is_digit. rewrite ascii_digit_value by exact H. reflexivity.
Qed.

Lemma py_int_app (a b : str) :
  py_int nd_value (a ++ b)
  = fold_left (fun acc c => 10 * acc + default 0 (digit_value nd_value c))
      b (py_int nd_value a).
Proof. unfold py_int. apply fold_left_app. Qed.

Lemma py_int_snoc (a : str) (c : N) :
  py_int nd_value (a ++ [c])
  = 10 * py_int nd_value a + default 0 (digit_value nd_value c).
Proof. rewrite py_int_app. reflexivity. Qed.

(** Leading zeros do not change the value. *)
Lemma py_int_zeros (k : nat) (s : str) :
  py_int nd_value (repeat 48 k ++ s) = py_int nd_value s.
Proof.
  rewrite py_int_app.
  assert (py_int nd_value (repeat 48 k) = 0) as ->; [|reflexivity].
  induction k as [|k IH]; [reflexivity|].
  change (repeat 48 (S k)) with (48 :: repeat 48 k).
  rewrite repeat_cons, py_int_snoc, IH. reflexivity.
Qed.

Lemma log2_div10 (n : N) : 10 <= n -> N.log2 (n / 10) < N.log2 n.
Proof.
  intros H.
  assert (Hq : 0 < n / 10) by (apply N.div_str_pos; lia).
  assert (H2 : 2 * (n / 10) <= n).
  { pose proof (N.Div0.mul_div_le n 10). lia. }
  apply N.log2_le_mono in H2. rewrite N.log2_double in H2 by exact Hq. lia.
Qed.

Lemma py_str_fuel_spec (fuel : nat) (n : N) :
  (N.to_nat (N.log2 n) < fuel)%nat ->
  py_str_fuel fuel n <> []
  /\ Forall ascii_digit (py_str_fuel fuel n)
  /\ py_int nd_value (py_str_fuel fuel n) = n.
Proof.
  revert n. induction fuel as [|fuel IH]; intros n Hf; [lia|].
  simpl. destruct (N.ltb_spec n 10) as [Hlt|Hge].
  - repeat split; [discriminate | repeat constructor; cbv beta; lia |].
    unfold py_int. simpl. rewrite ascii_digit_value by lia. simpl. lia.
  - destruct (IH (n / 10)) as (Hne & Hd & Hv).
    { pose proof (log2_div10 n Hge). lia. }
    pose proof (N.mod_upper_bound n 10 ltac:(lia)) as Hm.
    pose proof (N.div_mod n 10 ltac:(lia)) as Hn.
    set (q := n / 10) in *. set (r := n mod 10) in *. clearbody q r.
    repeat split.
    + intros E. apply app_eq_nil in E as [_ E]. discriminate.
    + apply Forall_app. split; [exact Hd|].
      constructor; [cbv beta; lia | constructor].
    + rewrite py_int_snoc, Hv, ascii_digit_value by lia. simpl. lia.
Qed.

Lemma py_str_spec (n : N) :
  py_str n <> []
  /\ Forall ascii_digit (py_str n)
  /\ py_int nd_value (py_str n) = n.
Proof. apply py_str_fuel_spec. lia. Qed.

Lemma py_str_digits (n : N) : Forall digit (py_str n).
Proof.
  destruct (py_str_spec n) as (_ & H & _).
  eapply Forall_impl; [exact H|]. intros c Hc. apply ascii_digit_is_digit, Hc.
Qed.

Lemma py_int_py_str (n : N) : py_int nd_value (py_str n) = n.
Proof. apply py_str_spec. Qed.

Lemma py_str_nonempty (n : N) : py_str n <> [].
Proof. apply py_str_spec. Qed.

End NumberFacts.

(** ** The scan *)

Section ScanFacts.

Variable nd_value : N -> option N.
Variables prefix ext : str.

Local Abbreviation digit := (fun c => is_digit nd_value c = true).
Local Abbreviation pmatch := (pattern_match nd_value prefix ext).
Local Abbreviation loop := (fold_left (scan_step nd_value prefix ext)).

(** The loop invariant: the running maximum dominates its start value and
    every index seen, and is the start value or one of those indices. *)
Lemma loop_spec (listing : list str) (start : N) :
  start <= loop listing start
  /\ (forall fname g, fname ∈ listing -> pmatch fname = Some g ->
        py_int nd_value g <= loop listing start)
  /\ (loop listing start = start
      \/ exists fname g, fname ∈ listing /\ pmatch fname = Some g
                         /\ py_int nd_value g = loop listing start).
Proof.
  revert start. induction listing as [|f listing IH]; intros start; simpl.
  - repeat split; [lia | | left; reflexivity].
    intros fname g H. inversion H.
  - destruct (IH (scan_step nd_value prefix ext start f)) as (Hge & Hub & Hatt).
    assert (Hstep : start <= scan_step nd_value prefix ext start f
                    /\ forall g, pmatch f = Some g ->
                         py_int nd_value g <= scan_step nd_value prefix ext start f).
    { unfold scan_step. destruct (pmatch f) as [g0|].
      - split; [lia|]. intros g [= <-]. lia.
      - split; [lia|]. discriminate. }
    destruct Hstep as [Hs1 Hs2].
    split; [lia|]. split.
    + intros fname g Hin Hm. apply elem_of_cons in Hin as [-> | Hin].
      * specialize (Hs2 g Hm). lia.
      * exact (Hub fname g Hin Hm).
    + destruct Hatt as [Heq | (fname & g & Hin & Hm & Hv)].
      * rewrite Heq. unfold scan_step.
        destruct (pmatch f) as [g0|] eqn:Hm; [|left; reflexivity].
        destruct (N.max_spec start (py_int nd_value g0)) as [[_ ->] | [_ ->]].
        -- right. exists f, g0. split; [left | split; [exact Hm | reflexivity]].
        -- left. reflexivity.
      * right. exists fname, g. split; [right; exact Hin | split; assumption].
Qed.

Lemma scan_upper (listing : list str) (fname g : str) :
  fname ∈ listing -> pmatch fname = Some g ->
  py_int nd_value g <= scan nd_value prefix ext listing.
Proof. intros. eapply loop_spec; eassumption. Qed.

Lemma scan_attained (listing : list str) :
  scan nd_value prefix ext listing = 0
  \/ exists fname g, fname ∈ listing /\ pmatch fname = Some g
                     /\ py_int nd_value g = scan nd_value prefix ext listing.
Proof. apply loop_spec. Qed.

(** The maximum is determined by which names occur in the listing. *)
Lemma scan_le_of_incl (l1 l2 : list str) :
  (forall fname, fname ∈ l1 -> fname ∈ l2) ->
  scan nd_value prefix ext l1 <= scan nd_value prefix ext l2.
Proof.
  intros Hincl. destruct (scan_attained l1) as [-> | (f & g & Hin & Hm & <-)].
  - lia.
  - apply (scan_upper l2 f g); [apply Hincl, Hin | exact Hm].
Qed.

Lemma scan_same_names (l1 l2 : list str) :
  (forall fname, fname ∈ l1 <-> fname ∈ l2) ->
  scan nd_value prefix ext l1 = scan nd_value prefix ext l2.
Proof.
  intros H. apply N.le_antisymm; apply scan_le_of_incl; intros f; apply H.
Qed.

(** A name built as the function builds its result is matched, with the
    decimal text as group 1. *)
Lemma pattern_match_format_name (n : N) :
  pmatch (format_name prefix n ext) = Some (py_str n).
Proof.
  apply pattern_match_spec.
  split; [apply (py_str_nonempty nd_value)|].
  split; [apply py_str_digits|].
  exists ext. split; [left; reflexivity | reflexivity].
Qed.

End ScanFacts.

(** ** The scan against the specification's series *)

Lemma forallb_Forall_true {A} (p : A -> bool) (l : list A) :
  forallb p l = true <-> Forall (fun x => p x = true) l.
Proof.
  induction l as [|x l IH]; simpl.
  - split; [constructor | reflexivity].
  - rewrite andb_true_iff, IH. split.
    + intros [H1 H2]. constructor; assumption.
    + intros H. apply Forall_cons in H. exact H.
Qed.

Section SeriesFacts.

Variable nd_value : N -> option N.
Variables prefix ext : str.

Local Abbreviation pmatch := (pattern_match nd_value prefix ext).
Local Abbreviation sgroup := (series_group nd_value prefix ext).
Local Abbreviation sname := (series_name nd_value prefix ext).

Lemma series_group_spec (fname ds : str) :
  sgroup fname = Some ds <-> sname fname ds.
Proof.
  unfold series_group, series_name. split.
  - destruct (match_literal prefix fname) as [rest|] eqn:E; [|discriminate].
    apply match_literal_spec in E. subst fname.
    destruct (decide _) as [Hd|]; [|discriminate].
    destruct (take _ rest) as [|c t] eqn:Ht; [discriminate|].
    destruct (forallb _ _) eqn:Hf; [|discriminate].
    intros [= <-]. apply forallb_Forall_true in Hf.
    split; [|split; [discriminate | exact Hf]].
    pose proof (take_drop (length rest - length ext) rest) as Htd.
    rewrite Ht, Hd in Htd. rewrite <- Htd. reflexivity.
  - intros (-> & Hne & Hd).
    rewrite match_literal_app, length_app.
    replace (length ds + length ext - length ext)%nat with (length ds) by lia.
    rewrite take_app_length, drop_app_length.
    destruct (decide (ext = ext)) as [_|]; [|contradiction].
    destruct ds as [|c ds]; [contradiction|].
    apply forallb_Forall_true in Hd. rewrite Hd. reflexivity.
Qed.

(** Every name of the series is matched by the pattern. *)
Lemma series_name_matches (fname ds : str) :
  sname fname ds -> pmatch fname = Some ds.
Proof.
  intros (-> & Hne & Hd). apply pattern_match_spec.
  repeat split; try assumption.
  exists ext. split; [left; reflexivity | reflexivity].
Qed.

(** What the pattern matches is a name of the series, or such a name
    followed by one newline. *)
Lemma matches_series_or_newline (fname g : str) :
  pmatch fname = Some g ->
  sname fname g \/ exists fname', sname fname' g /\ fname = fname' ++ [NEWLINE].
Proof.
  intros H. apply pattern_match_spec in H as (Hne & Hd & tail & [-> | ->] & ->).
  - left. repeat split; assumption.
  - right. exists (prefix ++ g ++ ext). split.
    + repeat split; assumption.
    + rewrite <- !app_assoc. reflexivity.
Qed.

Lemma no_twin_match_is_series (listing : list str) (fname : str) :
  no_newline_twin nd_value prefix ext listing -> fname ∈ listing -> pmatch fname = sgroup fname.
Proof.
  intros Hno Hin. destruct (pmatch fname) as [g|] eqn:Hm.
  - symmetry. apply series_group_spec.
    destruct (matches_series_or_newline fname g Hm) as [H | (f' & Hs & ->)].
    + exact H.
    + exfalso. exact (Hno _ f' g Hin Hs eq_refl).
  - destruct (sgroup fname) as [ds|] eqn:Hs; [|reflexivity].
    apply series_group_spec, series_name_matches in Hs. congruence.
Qed.

Lemma series_max_cons (fname : str) (listing : list str) :
  series_max nd_value prefix ext (fname :: listing)
  = match sgroup fname with
    | Some ds => N.max (py_int nd_value ds)
                   (series_max nd_value prefix ext listing)
    | None => series_max nd_value prefix ext listing
    end.
Proof.
  unfold series_max. simpl. destruct (sgroup fname); reflexivity.
Qed.

Lemma loop_series_max (listing : list str) (start : N) :
  (forall fname, fname ∈ listing -> pmatch fname = sgroup fname) ->
  fold_left (scan_step nd_value prefix ext) listing start
  = N.max start (series_max nd_value prefix ext listing).
Proof.
  revert start. induction listing as [|f listing IH]; intros start Hall.
  - simpl. unfold series_max. simpl. lia.
  - simpl. rewrite IH by (intros f' Hf'; apply Hall; right; exact Hf').
    rewrite series_max_cons. unfold scan_step. rewrite (Hall f) by left.
    destruct (sgroup f) as [ds|]; lia.
Qed.

(** Away from newline-terminated twins the function computes what the
    specification asks for. *)
Lemma next_name_series_next (listing : list str) :
  no_newline_twin nd_value prefix ext listing ->
  next_name nd_value prefix ext listing
  = series_next nd_value prefix ext listing.
Proof.
  intros Hno. unfold next_name, series_next, format_name, scan.
  rewrite loop_series_max.
  - rewrite N.max_r by lia. reflexivity.
  - intros f Hf. eapply no_twin_match_is_series; eassumption.
Qed.

End SeriesFacts.

(** The name built from the maximum is not in the listing: it would be
    matched with an index above the maximum. *)
Lemma next_name_fresh nd_value prefix ext (listing : list str) :
  next_name nd_value prefix ext listing ∉ listing.
Proof.
  intros Hin.
  pose proof (pattern_match_format_name nd_value prefix ext
                (scan nd_value prefix ext listing + 1)) as Hm.
  pose proof (scan_upper nd_value prefix ext listing _ _ Hin Hm) as Hle.
  rewrite py_int_py_str in Hle. lia.
Qed.

(** ** [next_image_filename] on a file system *)

Lemma next_image_filename_directory nd_value directory prefix ext st entries :
  fs st !! directory = Some (Directory entries) ->
  next_image_filename nd_value directory prefix ext st
  = (Return (next_name nd_value prefix ext (entries.*1)), st).
Proof.
  intros H. unfold next_image_filename, makedirs, listdir, get_fs.
  unfold mbind, M_bind, bind, mret, M_ret, ret. simpl. rewrite H. simpl.
  rewrite H. reflexivity.
Qed.

Lemma next_image_filename_absent nd_value directory prefix ext st :
  fs st !! directory = None ->
  next_image_filename nd_value directory prefix ext st
  = (Return (next_name nd_value prefix ext []),
     {| stdin := stdin st; fs := <[directory := Directory []]> (fs st);
        trace := trace st |}).
Proof.
  intros H. unfold next_image_filename, makedirs, listdir, get_fs, put_fs.
  unfold mbind, M_bind, bind, mret, M_ret, ret. simpl. rewrite H. simpl.
  rewrite lookup_insert_eq. reflexivity.
Qed.

Lemma next_image_filename_regular_file nd_value directory prefix ext st :
  fs st !! directory = Some RegularFile ->
  next_image_filename nd_value directory prefix ext st
  = (Raise FileExistsError, st).
Proof.
  intros H. unfold next_image_filename, makedirs, listdir, get_fs.
  unfold mbind, M_bind, bind, mret, M_ret, ret, raise. simpl. rewrite H.
  reflexivity.
Qed.

(** ** The filename series *)

(** C1, at the input where the code leaves the claim: the listing holds
    the series name [img1.png] and the name [img5.png] followed by a
    newline character.  Only the first is prefix, digits, extension, so the
    maximum over the series is 1 and the claim asks for [img2.png]; the
    pattern's [$] also accepts the second, and the function returns
    [img6.png]. *)
Theorem next_name_counts_newline_twin (nd_value : N -> option N) :
  let listing := [lit "img1.png"; lit "img5.png" ++ [NEWLINE]] in
  series_group nd_value (lit "img") (lit ".png") <$> listing
    = [Some (lit "1"); None]
  /\ series_next nd_value (lit "img") (lit ".png") listing = lit "img2.png"
  /\ next_name nd_value (lit "img") (lit ".png") listing = lit "img6.png".
Proof. split; [|split]; vm_compute; reflexivity. Qed.

(** C3, at the input where the code leaves the claim: the name [img5.png]
    followed by a newline character is not prefix, digits, extension with
    nothing after, yet it is matched and moves the result from [img1.png]
    to [img6.png]. *)
Theorem newline_twin_not_ignored (nd_value : N -> option N) :
  let twin := lit "img5.png" ++ [NEWLINE] in
  series_group nd_value (lit "img") (lit ".png") twin = None
  /\ pattern_match nd_value (lit "img") (lit ".png") twin = Some (lit "5")
  /\ next_name nd_value (lit "img") (lit ".png") [] = lit "img1.png"
  /\ next_name nd_value (lit "img") (lit ".png") [twin] = lit "img6.png".
Proof. split; [|split; [|split]]; vm_compute; reflexivity. Qed.

(** A name the pattern does not match leaves the scan unchanged, wherever
    it stands in the listing. *)
Lemma unmatched_name_ignored nd_value prefix ext l1 l2 fname :
  pattern_match nd_value prefix ext fname = None ->
  next_name nd_value prefix ext (l1 ++ fname :: l2)
  = next_name nd_value prefix ext (l1 ++ l2).
Proof.
  intros H. unfold next_name, scan. rewrite !fold_left_app. simpl.
  unfold scan_step at 2. rewrite H. reflexivity.
Qed.

(** A name outside the series is unmatched unless it is a series name
    followed by one newline. *)
Lemma outside_series_unmatched nd_value prefix ext fname :
  series_group nd_value prefix ext fname = None ->
  (forall fname' g, series_name nd_value prefix ext fname' g ->
                    fname <> fname' ++ [NEWLINE]) ->
  pattern_match nd_value prefix ext fname = None.
Proof.
  intros Hs Hno.
  destruct (pattern_match nd_value prefix ext fname) as [g|] eqn:Hm;
    [|reflexivity].
  destruct (matches_series_or_newline _ _ _ _ _ Hm) as [H | (f' & H & ->)].
  - apply series_group_spec in H. congruence.
  - exfalso. exact (Hno f' g H eq_refl).
Qed.

(** The specification's examples of ignored names, and two names that
    differ from the series only in letter case. *)
Lemma ignored_examples (nd_value : N -> option N) :
  Forall (fun fname =>
            pattern_match nd_value (lit "img") (lit ".png") fname = None)
    [lit "image2.png"; lit "img2.jpg"; lit "imgX.png";
     lit "img2.PNG"; lit "IMG2.png"; lit "img.png"; lit "ximg2.png";
     lit "img2.png.bak"; lit "img-2.png"].
Proof. repeat constructor. Qed.

(** Digits outside ASCII are matched and parsed by their decimal value:
    with ARABIC-INDIC DIGIT THREE as the digit group the next index is 4. *)
Example arabic_indic_digit_counts :
  pattern_match arabic_indic (lit "img") (lit ".png")
    (lit "img" ++ [1635] ++ lit ".png") = Some [1635]
  /\ next_name arabic_indic (lit "img") (lit ".png")
       [lit "img" ++ [1635] ++ lit ".png"] = lit "img4.png".
Proof. split; vm_compute; reflexivity. Qed.

(** C4: the digit group of a matching name is read as a decimal number,
    leading zeros included: a directory whose only entry is [prefix], [k]
    zeros, the decimal text of [n], [ext] yields the name numbered [n + 1];
    in particular [img007.png] alone yields [img8.png]. *)
Theorem leading_zeros_parse_as_value (nd_value : N -> option N)
    (prefix ext : str) (k : nat) (n : N) :
  let fname := prefix ++ (repeat 48 k ++ py_str n) ++ ext in
  pattern_match nd_value prefix ext fname = Some (repeat 48 k ++ py_str n)
  /\ py_int nd_value (repeat 48 k ++ py_str n) = n
  /\ next_name nd_value prefix ext [fname] = prefix ++ py_str (n + 1) ++ ext
  /\ next_name nd_value (lit "img") (lit ".png") [lit "img007.png"]
     = lit "img8.png".
Proof.
  intros fname.
  assert (Hm : pattern_match nd_value prefix ext fname
               = Some (repeat 48 k ++ py_str n)).
  { apply pattern_match_spec. split; [|split].
    - intros E. apply app_eq_nil in E as [_ E].
      exact (py_str_nonempty nd_value n E).
    - apply Forall_app. split; [|apply py_str_digits].
      apply Forall_forall. intros c Hc. apply list_elem_of_In, repeat_spec in Hc. subst c.
      reflexivity.
    - exists ext. split; [left; reflexivity | reflexivity]. }
  assert (Hv : py_int nd_value (repeat 48 k ++ py_str n) = n)
    by (rewrite py_int_zeros; apply py_int_py_str).
  split; [exact Hm | split; [exact Hv | split; [| vm_compute; reflexivity]]].
  unfold next_name, format_name, scan. simpl. unfold scan_step.
  rewrite Hm, Hv. rewrite N.max_r by lia. reflexivity.
Qed.

(** C5: the returned filename is not an entry of the listing that was
    scanned. *)
Theorem next_name_not_in_listing (nd_value : N -> option N)
    (prefix ext : str) (listing : list str) :
  next_name nd_value prefix ext listing ∉ listing.
Proof. apply next_name_fresh. Qed.

(** C10: the result is the same for every permutation of the listing. *)
Theorem next_name_permutation (nd_value : N -> option N)
    (prefix ext : str) (listing listing' : list str) :
  Permutation listing listing' ->
  next_name nd_value prefix ext listing
  = next_name nd_value prefix ext listing'.
Proof.
  intros Hp. unfold next_name. f_equal. f_equal.
  apply scan_same_names. intros fname. rewrite Hp. reflexivity.
Qed.

Lemma next_name_permutation_witness :
  Permutation [lit "img2.png"; lit "notes.txt"; lit "img10.png"]
              [lit "notes.txt"; lit "img10.png"; lit "img2.png"]
  /\ next_name arabic_indic (lit "img") (lit ".png")
       [lit "img2.png"; lit "notes.txt"; lit "img10.png"]
     = next_name arabic_indic (lit "img") (lit ".png")
         [lit "notes.txt"; lit "img10.png"; lit "img2.png"].
Proof.
  split.
  - exact (Permutation_cons_append [lit "notes.txt"; lit "img10.png"]
             (lit "img2.png")).
  - apply next_name_permutation.
    exact (Permutation_cons_append [lit "notes.txt"; lit "img10.png"]
             (lit "img2.png")).
Defined.

(** The result depends only on which names occur, not on their order or
    multiplicity. *)
Lemma next_name_same_names nd_value prefix ext (l1 l2 : list str) :
  (forall fname, fname ∈ l1 <-> fname ∈ l2) ->
  next_name nd_value prefix ext l1 = next_name nd_value prefix ext l2.
Proof.
  intros H. unfold next_name. rewrite (scan_same_names _ _ _ l1 l2 H).
  reflexivity.
Qed.

(** On an existing directory the call changes nothing and returns a name
    that is not among the entries. *)
Lemma next_image_filename_fresh nd_value directory prefix ext st entries :
  fs st !! directory = Some (Directory entries) ->
  exists fname,
    next_image_filename nd_value directory prefix ext st = (Return fname, st)
    /\ fname ∉ entries.*1.
Proof.
  intros H. exists (next_name nd_value prefix ext (entries.*1)).
  split; [apply next_image_filename_directory, H | apply next_name_fresh].
Qed.

(** C2: on a directory that does not exist or has no entry,
    [next_image_filename] returns [prefix], [1], [ext], and the directory
    exists afterwards; the default call returns [img1.png]. *)
Theorem next_image_filename_first (nd_value : N -> option N)
    (directory prefix ext : str) (st : state) :
  fs st !! directory = None \/ fs st !! directory = Some (Directory []) ->
  next_image_filename nd_value directory prefix ext st
  = (Return (prefix ++ lit "1" ++ ext),
     {| stdin := stdin st; fs := <[directory := Directory []]> (fs st);
        trace := trace st |})
  /\ <[directory := Directory []]> (fs st) !! directory = Some (Directory [])
  /\ lit "img" ++ lit "1" ++ lit ".png" = lit "img1.png".
Proof.
  intros H. split; [|split; [apply lookup_insert_eq | reflexivity]].
  destruct H as [H | H].
  - rewrite next_image_filename_absent by exact H. reflexivity.
  - rewrite (next_image_filename_directory _ _ _ _ _ [] H).
    rewrite (insert_id _ _ _ H). destruct st. reflexivity.
Qed.

Lemma next_image_filename_first_witness :
  (fs (start_state [] ∅) !! lit "images" = None
   \/ fs (start_state [] ∅) !! lit "images" = Some (Directory []))
  /\ fst (next_image_filename ascii_only (lit "images") (lit "img")
            (lit ".png") (start_state [] ∅))
     = Return (lit "img1.png").
Proof.
  split.
  - left. reflexivity.
  - destruct (next_image_filename_first ascii_only (lit "images")
                (lit "img") (lit ".png") (start_state [] ∅)) as [H _].
    + left. reflexivity.
    + rewrite H. reflexivity.
Defined.

(** ** Prompt collection *)

Lemma has_empty_line_spec (inp : list str) :
  has_empty_line inp = true <-> [] ∈ inp.
Proof.
  induction inp as [|line inp IH]; simpl.
  - split; [discriminate | intros H; inversion H].
  - destruct line as [|c line].
    + split; [intros _; left | reflexivity].
    + rewrite IH. split; [intros H; right; exact H|].
      intros H. apply elem_of_cons in H as [H | H]; [discriminate | exact H].
Qed.

(** The loop with enough fuel: it returns the lines before the first empty
    line, or raises [EOFError] when standard input ends first; one line is
    requested per accumulated line and one more for the line that ends the
    loop. *)
Lemma while_True_run (fuel : nat) (lines : list str) (st : state) :
  (length (stdin st) < fuel)%nat ->
  while_True fuel lines st
  = (if has_empty_line (stdin st)
     then Return (lines ++ lines_until_empty (stdin st))
     else Raise EOFError,
     {| stdin := after_empty_line (stdin st); fs := fs st;
        trace := trace st
                 ++ repeat Input (S (length (lines_until_empty (stdin st)))) |}).
Proof.
  revert lines st. induction fuel as [|fuel IH]; intros lines st Hf; [lia|].
  destruct st as [inp m tr]. simpl in Hf |- *.
  unfold mbind, M_bind, bind, input. simpl.
  destruct inp as [|line inp]; [reflexivity|].
  destruct line as [|c line].
  - simpl. rewrite app_nil_r. reflexivity.
  - rewrite IH by (simpl in *; lia). simpl.
    rewrite <- !app_assoc. reflexivity.
Qed.

(** The prompt line is ASCII and is printed on every standard output. *)
Lemma print_enter_prompt (w : world) :
  print w ENTER_PROMPT = emit (Stdout ENTER_PROMPT).
Proof.
  unfold print.
  assert (encodable w ENTER_PROMPT = true) as -> by reflexivity.
  reflexivity.
Qed.

Lemma collect_prompt_run (w : world) (st : state) :
  collect_prompt w st
  = (if has_empty_line (stdin st)
     then Return (prompt_of_lines (stdin st))
     else Raise EOFError,
     {| stdin := after_empty_line (stdin st); fs := fs st;
        trace := trace st
                 ++ Stdout ENTER_PROMPT
                 :: repeat Input (S (length (lines_until_empty (stdin st)))) |}).
Proof.
  unfold collect_prompt. rewrite print_enter_prompt.
  unfold read_lines, emit.
  unfold mbind, M_bind, bind, mret, M_ret, ret. cbv beta iota.
  rewrite while_True_run by (simpl; lia). simpl.
  rewrite <- app_assoc.
  destruct (has_empty_line (stdin st)); reflexivity.
Qed.

(** C6, as amended: when standard input holds an empty line, prompt
    collection returns the lines before the first empty line, joined by a
    newline and trimmed. *)
Theorem collect_prompt_until_empty_line (w : world) (st : state) :
  [] ∈ stdin st ->
  fst (collect_prompt w st) = Return (prompt_of_lines (stdin st)).
Proof.
  intros H. apply has_empty_line_spec in H.
  rewrite collect_prompt_run, H. reflexivity.
Qed.

Lemma collect_prompt_until_empty_line_witness :
  [] ∈ stdin (start_state [lit "Hello"; lit "World"; []] ∅)
  /\ fst (collect_prompt (sample_world None None false)
            (start_state [lit "Hello"; lit "World"; []] ∅))
     = Return (lit "Hello" ++ [NEWLINE] ++ lit "World").
Proof.
  split.
  - right. right. left.
  - rewrite (collect_prompt_until_empty_line (sample_world None None false)
               (start_state [lit "Hello"; lit "World"; []] ∅)).
    + reflexivity.
    + right. right. left.
Defined.

(** C6 as stated fails at end of input: with the single line [Hello] and
    no empty line, [input()] raises [EOFError] and no prompt results,
    where the claim gives the prompt [Hello]. *)
Lemma collect_prompt_eof_counterexample :
  prompt_of_lines [lit "Hello"] = lit "Hello"
  /\ fst (collect_prompt (sample_world None None false)
            (start_state [lit "Hello"] ∅)) = Raise EOFError
  /\ fst (collect_prompt (sample_world None None false)
            (start_state [lit "Hello"] ∅))
     <> Return (prompt_of_lines [lit "Hello"]).
Proof.
  split; [reflexivity|]. split; [reflexivity|]. discriminate.
Qed.

(** Standard input without an empty line always ends in [EOFError]. *)
Lemma collect_prompt_eof (w : world) (st : state) :
  [] ∉ stdin st -> fst (collect_prompt w st) = Raise EOFError.
Proof.
  intros H. rewrite collect_prompt_run.
  destruct (has_empty_line (stdin st)) eqn:E; [|reflexivity].
  apply has_empty_line_spec in E. contradiction.
Qed.

(** ** The run *)

Lemma api_requests_app (tr evs : list event) :
  api_requests (tr ++ evs) = (api_requests tr + api_requests evs)%nat.
Proof. unfold api_requests. rewrite List.filter_app, length_app. reflexivity. Qed.

Lemma input_requests_app (tr evs : list event) :
  input_requests (tr ++ evs) = (input_requests tr + input_requests evs)%nat.
Proof. unfold input_requests. rewrite List.filter_app, length_app. reflexivity. Qed.

Lemma store_fresh (name : str) (c : content) (entries : list (str * content)) :
  name ∉ entries.*1 -> store name c entries = entries ++ [(name, c)].
Proof.
  induction entries as [|[n c'] entries IH]; simpl; intros H; [reflexivity|].
  apply not_elem_of_cons in H as [Hne Hnin].
  destruct (decide (n = name)) as [->|_]; [contradiction|].
  rewrite IH by exact Hnin. reflexivity.
Qed.

(** The loop over the parts returns the first inline image after logging
    it, or raises without touching the state. *)
Lemma first_image_run (parts : list part) (st : state) :
  (exists img,
     first_image parts st
     = (Return img,
        {| stdin := stdin st; fs := fs st;
           trace := trace st
             ++ [Log INFO "Image generated successfully (original size: %sx%s)."] |}))
  \/ (exists e, is_Exception e = true /\ first_image parts st = (Raise e, st)).
Proof.
  induction parts as [|[|[img|]] parts IH]; simpl.
  - right. exists ValueError. split; reflexivity.
  - exact IH.
  - left. exists img. reflexivity.
  - right. exists ExternalError. split; reflexivity.
Qed.

Arguments print : simpl never.
Arguments next_name : simpl never.
Arguments saved_message : simpl never.
Arguments plain_name : simpl never.

Ltac run_monad :=
  unfold generate_and_save, GeminiImageGenerator, generate_image, save_image,
    next_image_filename, makedirs, listdir, image_save, resize, raise_for,
    get_fs, put_fs, logger_info, logger_error, logger_exception, emit,
    sys_exit, raise, try_except, mbind, M_bind, bind, mret, M_ret, ret.

Lemma filter_requests_inputs (k : nat) :
  List.filter is_api_request (repeat Input k) = [].
Proof. induction k as [|k IH]; [reflexivity | exact IH]. Qed.

Ltac count_requests :=
  repeat match goal with
         | H : context [api_requests] |- _ => revert H
         end;
  simpl; repeat rewrite api_requests_app; repeat rewrite input_requests_app;
  unfold api_requests, input_requests; simpl;
  rewrite ?filter_requests_inputs; simpl; intros; lia.

Lemma requests_of_app (tr evs : list event) :
  requests_of (tr ++ evs) = requests_of tr ++ requests_of evs.
Proof.
  induction tr as [|ev tr IH]; [reflexivity|].
  destruct ev; simpl; rewrite IH; reflexivity.
Qed.

Lemma requests_of_inputs (k : nat) : requests_of (repeat Input k) = [].
Proof. induction k as [|k IH]; [reflexivity | exact IH]. Qed.

Lemma api_requests_length (tr : list event) :
  api_requests tr = length (requests_of tr).
Proof.
  unfold api_requests. induction tr as [|ev tr IH]; [reflexivity|].
  destruct ev; simpl; rewrite ?IH; reflexivity.
Qed.

Ltac solve_requests :=
  simpl; rewrite ?requests_of_app; simpl; rewrite ?requests_of_inputs;
  rewrite ?app_nil_r; rewrite <- ?app_assoc;
  repeat split; auto.

(** *** The two messages that are not ASCII *)

Lemma encodable_app (w : world) (a b : str) :
  encodable w (a ++ b) = encodable w a && encodable w b.
Proof. apply forallb_app. Qed.

Lemma encodable_ascii (w : world) (text : str) :
  Forall (fun c => c < 128) text -> encodable w text = true.
Proof.
  intros H. unfold encodable. apply forallb_Forall_true.
  eapply Forall_impl; [exact H|]. intros c Hc. cbv beta in Hc.
  apply N.ltb_lt in Hc. rewrite Hc. reflexivity.
Qed.

Lemma print_generating (w : world) :
  print w GENERATING
  = if stdout_encodes w 8230 then emit (Stdout GENERATING)
    else raise UnicodeEncodeError.
Proof.
  unfold print.
  assert (encodable w GENERATING = stdout_encodes w 8230) as ->;
    [|reflexivity].
  unfold GENERATING. rewrite encodable_app.
  assert (encodable w (lit "Generating image") = true) as -> by reflexivity.
  unfold encodable. simpl.
  destruct (stdout_encodes w 8230); reflexivity.
Qed.

Lemma print_saved (w : world) (filename : str) :
  Forall (fun c => c < 128) filename ->
  print w (saved_message filename)
  = if stdout_encodes w 215 then emit (Stdout (saved_message filename))
    else raise UnicodeEncodeError.
Proof.
  intros H. unfold print.
  assert (encodable w (saved_message filename) = stdout_encodes w 215) as ->;
    [|reflexivity].
  unfold saved_message. rewrite !encodable_app.
  rewrite (encodable_ascii w filename H).
  assert (encodable w (lit "Saved as ") = true) as -> by reflexivity.
  assert (encodable w (lit " (") = true) as -> by reflexivity.
  assert (encodable w (py_str BANNER_WIDTH) = true) as -> by reflexivity.
  assert (encodable w (py_str BANNER_HEIGHT) = true) as -> by reflexivity.
  assert (encodable w (lit ")") = true) as -> by reflexivity.
  unfold encodable. simpl.
  destruct (stdout_encodes w 215); reflexivity.
Qed.

(** *** The names the run saves under *)

Lemma next_name_shape nd_value prefix ext (listing : list str) :
  exists ds,
    next_name nd_value prefix ext listing = prefix ++ ds ++ ext
    /\ Forall (fun c => 48 <= c <= 57) ds.
Proof.
  exists (py_str (scan nd_value prefix ext listing + 1)).
  split; [reflexivity|]. apply (py_str_spec nd_value).
Qed.

Lemma default_name_ascii nd_value (listing : list str) :
  Forall (fun c => c < 128)
    (next_name nd_value (lit "img") (lit ".png") listing).
Proof.
  destruct (next_name_shape nd_value (lit "img") (lit ".png") listing)
    as (ds & -> & Hd).
  rewrite !Forall_app. split; [|split].
  - repeat constructor.
  - eapply Forall_impl; [exact Hd|]. intros c Hc. cbv beta in Hc. lia.
  - repeat constructor.
Qed.

Lemma default_name_plain nd_value (listing : list str) :
  plain_name (next_name nd_value (lit "img") (lit ".png") listing) = true.
Proof.
  destruct (next_name_shape nd_value (lit "img") (lit ".png") listing)
    as (ds & -> & Hd).
  change (lit "img" ++ ds ++ lit ".png")
    with (105 :: 109 :: 103 :: ds ++ lit ".png").
  unfold plain_name.
  rewrite !bool_decide_eq_false_2 by discriminate.
  rewrite !andb_true_r. apply forallb_Forall_true.
  change (105 :: 109 :: 103 :: ds ++ lit ".png")
    with (lit "img" ++ ds ++ lit ".png").
  rewrite !Forall_app. split; [|split].
  - repeat constructor.
  - eapply Forall_impl; [exact Hd|]. intros c [Hc1 Hc2]. unfold SEP.
    destruct (N.eqb_spec c 47) as [->|_]; [lia|].
    destruct (N.eqb_spec c 0) as [->|_]; [lia|]. reflexivity.
  - repeat constructor.
Qed.

Lemma truncate_fresh (name : str) (entries : list (str * content)) :
  name ∉ entries.*1 -> truncate name entries = entries.
Proof.
  induction entries as [|[n c] entries IH]; simpl; intros H; [reflexivity|].
  apply not_elem_of_cons in H as [Hne Hnin].
  destruct (decide (n = name)) as [->|_]; [contradiction|].
  rewrite IH by exact Hnin. reflexivity.
Qed.

Lemma first_image_inline (parts : list part) (st : state) :
  first_image parts st
  = match first_inline parts with
    | Some (Some img) =>
        (Return img,
         {| stdin := stdin st; fs := fs st;
            trace := trace st
              ++ [Log INFO "Image generated successfully (original size: %sx%s)."] |})
    | Some None => (Raise ExternalError, st)
    | None => (Raise ValueError, st)
    end.
Proof.
  induction parts as [|[|[img|]] parts IH]; simpl; auto.
Qed.

(** The [try] block under the conditions [saves]: when they hold it
    stores the banner after one request, and returns unless the last
    message cannot be printed; when they fail it raises an [Exception],
    stores nothing and has sent at most the one request. *)
Lemma generate_and_save_run nd_value w key prompt (st : state) :
  exists o st',
    generate_and_save nd_value w key prompt st = (o, st')
    /\ stdin st' = stdin st
    /\ if saves nd_value w key prompt (fs st)
       then banner_written nd_value (fs st) (fs st')
            /\ requests_of (trace st')
               = requests_of (trace st) ++ [(key, prompt)]
            /\ o = (if stdout_encodes w 215 then Return tt
                    else Raise UnicodeEncodeError)
       else (exists e, o = Raise e /\ is_Exception e = true)
            /\ nothing_written (fs st) (fs st')
            /\ ((requests_of (trace st') = requests_of (trace st)
                 /\ fs st' = fs st)
                \/ requests_of (trace st')
                   = requests_of (trace st) ++ [(key, prompt)]).
Proof.
  destruct st as [inp m tr].
  unfold saves, provided_image, banner_written, nothing_written, entries_of,
    banner.
  unfold generate_and_save. rewrite print_generating.
  run_monad.
  set (images := lit "images"). clearbody images. simpl.
  destruct (stdout_encodes w 8230); simpl.
  2:{ do 2 eexists. split; [reflexivity|]. split; [reflexivity|].
      split; [eexists; split; reflexivity|]. split; [left; reflexivity|].
      left. solve_requests. }
  destruct (client_ok w key); simpl.
  2:{ do 2 eexists. split; [reflexivity|]. split; [reflexivity|].
      split; [eexists; split; reflexivity|]. split; [left; reflexivity|].
      left. solve_requests. }
  destruct (respond w key prompt) as [| |parts]; simpl.
  1,2: do 2 eexists; (split; [reflexivity|]); (split; [reflexivity|]);
       (split; [eexists; split; reflexivity|]); (split; [left; reflexivity|]);
       right; solve_requests.
  rewrite first_image_inline.
  destruct (first_inline parts) as [[img|]|]; simpl.
  2,3: do 2 eexists; (split; [reflexivity|]); (split; [reflexivity|]);
       (split; [eexists; split; reflexivity|]); (split; [left; reflexivity|]);
       right; solve_requests.
  destruct (resize_ok w img); simpl.
  2:{ do 2 eexists. split; [reflexivity|]. split; [reflexivity|].
      split; [eexists; split; reflexivity|]. split; [left; reflexivity|].
      right. solve_requests. }
  destruct (m !! images) as [[|entries]|] eqn:Hm; simpl.
  - do 2 eexists. split; [reflexivity|]. split; [reflexivity|].
    split; [eexists; split; reflexivity|]. split; [left; reflexivity|].
    right. solve_requests.
  - repeat (rewrite Hm; simpl). rewrite default_name_plain.
    destruct (save_outcome w images _ _); simpl; repeat (rewrite Hm; simpl).
    + rewrite print_saved by apply default_name_ascii.
      rewrite store_fresh by apply next_name_fresh.
      destruct (stdout_encodes w 215); simpl;
        do 2 eexists; (split; [reflexivity|]); (split; [reflexivity|]);
        (split; [split; [apply next_name_fresh | reflexivity]|]);
        solve_requests.
    + do 2 eexists. split; [reflexivity|]. split; [reflexivity|].
      split; [eexists; split; reflexivity|]. split; [left; reflexivity|].
      right. solve_requests.
    + do 2 eexists. split; [reflexivity|]. split; [reflexivity|].
      split; [eexists; split; reflexivity|]. split; [left; reflexivity|].
      right. solve_requests.
    + rewrite truncate_fresh by apply next_name_fresh.
      rewrite (insert_id _ _ _ Hm).
      do 2 eexists. split; [reflexivity|]. split; [reflexivity|].
      split; [eexists; split; reflexivity|]. split; [left; reflexivity|].
      right. solve_requests.
  - repeat (rewrite lookup_insert_eq; simpl). rewrite ?default_name_plain.
    destruct (save_outcome w images _ _); simpl;
      repeat (rewrite lookup_insert_eq; simpl).
    + rewrite print_saved by apply default_name_ascii.
      rewrite insert_insert_eq.
      destruct (stdout_encodes w 215); simpl;
        do 2 eexists; (split; [reflexivity|]); (split; [reflexivity|]);
        (split; [split; [apply next_name_fresh | reflexivity]|]);
        solve_requests.
    + do 2 eexists. split; [reflexivity|]. split; [reflexivity|].
      split; [eexists; split; reflexivity|].
      split; [right; split; reflexivity|].
      right. solve_requests.
    + do 2 eexists. split; [reflexivity|]. split; [reflexivity|].
      split; [eexists; split; reflexivity|].
      split; [right; split; reflexivity|].
      right. solve_requests.
    + rewrite insert_insert_eq.
      do 2 eexists. split; [reflexivity|]. split; [reflexivity|].
      split; [eexists; split; reflexivity|].
      split; [right; split; reflexivity|].
      right. solve_requests.
Qed.


(** ** Exit paths of the script *)

(** C8, as amended: when GEMINI_API_KEY is unset or empty once the
    credential file has been loaded into the environment, the run logs the
    error and exits with status 1, having requested no line from standard
    input and made no call to the provider. *)
Theorem missing_key_exits_first (nd_value : N -> option N) (w : world)
    (st : state) :
  key_missing (load_api_key w) = true ->
  run nd_value w st
  = (1, {| stdin := stdin st; fs := fs st;
           trace := trace st
             ++ [Log ERROR "GEMINI_API_KEY not found in GEMINI_API_KEY.env. Please add it and try again."] |})
  /\ input_requests (trace (snd (run nd_value w st)))
     = input_requests (trace st)
  /\ api_requests (trace (snd (run nd_value w st)))
     = api_requests (trace st).
Proof.
  intros H. unfold run, main. rewrite H. run_monad. simpl.
  split; [reflexivity|]. split; count_requests.
Qed.

Lemma missing_key_exits_first_witness :
  key_missing (load_api_key (sample_world None None false)) = true
  /\ fst (run ascii_only (sample_world None None false)
            (start_state [lit "a cat"; []] ∅)) = 1
  /\ trace (snd (run ascii_only (sample_world None None false)
                   (start_state [lit "a cat"; []] ∅)))
     = [Log ERROR "GEMINI_API_KEY not found in GEMINI_API_KEY.env. Please add it and try again."].
Proof.
  split; [reflexivity|].
  destruct (missing_key_exits_first ascii_only (sample_world None None false)
              (start_state [lit "a cat"; []] ∅) eq_refl) as [H _].
  rewrite H. split; reflexivity.
Defined.

(** C8 as stated fails when the credential file is missing but the
    variable is already in the process environment: the run reads the
    prompt, calls the provider and exits with status 0. *)
Lemma credential_file_missing_counterexample :
  dotenv_file (sample_world (Some (lit "secret")) None false) = None
  /\ fst (run ascii_only (sample_world (Some (lit "secret")) None false)
            (start_state [lit "a cat"; []] ∅)) = 0
  /\ input_requests
       (trace (snd (run ascii_only
                      (sample_world (Some (lit "secret")) None false)
                      (start_state [lit "a cat"; []] ∅)))) = 2%nat
  /\ api_requests
       (trace (snd (run ascii_only
                      (sample_world (Some (lit "secret")) None false)
                      (start_state [lit "a cat"; []] ∅)))) = 1%nat.
Proof. split; [|split; [|split]]; vm_compute; reflexivity. Qed.

(** With no credential file and no variable in the environment the key is
    missing. *)
Lemma no_file_no_variable (w : world) :
  dotenv_file w = None -> environ_key w = None ->
  key_missing (load_api_key w) = true.
Proof. intros H1 H2. unfold load_api_key. rewrite H1, H2. reflexivity. Qed.

(** C7: when the key is present and the collected, trimmed prompt is
    empty, the run logs the empty-prompt error and exits with status 1
    without any call to the provider and without touching the file
    system. *)
Theorem empty_prompt_exits_without_request (nd_value : N -> option N)
    (w : world) (st : state) :
  key_missing (load_api_key w) = false ->
  fst (collect_prompt w st) = Return [] ->
  run nd_value w st
  = (1, {| stdin := after_empty_line (stdin st); fs := fs st;
           trace := trace (snd (collect_prompt w st))
                    ++ [Log ERROR "No prompt provided; exiting."] |})
  /\ api_requests (trace (snd (run nd_value w st)))
     = api_requests (trace st).
Proof.
  intros Hk Hp. unfold run, main. rewrite Hk.
  unfold mbind, M_bind, bind.
  rewrite collect_prompt_run in Hp |- *.
  destruct (has_empty_line (stdin st)); [|discriminate].
  simpl in Hp. injection Hp as Hp. rewrite Hp.
  run_monad. simpl. split; [reflexivity | count_requests].
Qed.

Lemma empty_prompt_exits_without_request_witness :
  key_missing (load_api_key (sample_world (Some (lit "secret")) None false))
    = false
  /\ fst (collect_prompt (sample_world (Some (lit "secret")) None false)
            (start_state [[]] two_images)) = Return []
  /\ fst (run ascii_only (sample_world (Some (lit "secret")) None false)
            (start_state [[]] two_images)) = 1
  /\ api_requests
       (trace (snd (run ascii_only
                      (sample_world (Some (lit "secret")) None false)
                      (start_state [[]] two_images)))) = 0%nat.
Proof.
  split; [reflexivity|]. split; [reflexivity|].
  destruct (empty_prompt_exits_without_request ascii_only
              (sample_world (Some (lit "secret")) None false)
              (start_state [[]] two_images) eq_refl eq_refl) as [H1 H2].
  split.
  - rewrite H1. reflexivity.
  - rewrite H2. reflexivity.
Defined.

(** A prompt of blank characters only is empty after trimming. *)
Example blank_prompt_is_empty :
  fst (collect_prompt (sample_world None None false)
         (start_state [lit "  "; [9]; []] ∅)) = Return [].
Proof. reflexivity. Qed.

Ltac count_by_requests :=
  repeat match goal with
         | H : requests_of _ = _ |- _ => revert H
         end;
  simpl; rewrite ?api_requests_length; rewrite ?requests_of_app; simpl;
  rewrite ?requests_of_inputs; rewrite ?app_nil_r;
  intros;
  repeat match goal with
         | H : requests_of _ = _ |- _ => rewrite H
         end;
  rewrite ?length_app; simpl; lia.

(** Every run, by the conditions [stores_image]: when they hold the banner
    is stored after one request, and the exit status is 0 unless the last
    message cannot be printed; when they fail the status is 1, nothing is
    stored and at most one request was sent. *)
Lemma run_cases (nd_value : N -> option N) (w : world) (st : state) :
  exists code st',
    run nd_value w st = (code, st')
    /\ if stores_image nd_value w st
       then banner_written nd_value (fs st) (fs st')
            /\ api_requests (trace st') = S (api_requests (trace st))
            /\ code = (if stdout_encodes w 215 then 0 else 1)
       else code = 1
            /\ nothing_written (fs st) (fs st')
            /\ (api_requests (trace st') <= S (api_requests (trace st)))%nat.
Proof.
  unfold run, main, stores_image.
  destruct (load_api_key w) as [[|c key]|]; simpl.
  1,3: run_monad; simpl; do 2 eexists; (split; [reflexivity|]);
       (split; [reflexivity|]); (split; [left; reflexivity|]);
       count_requests.
  unfold mbind at 1, M_bind at 1, bind at 1. rewrite collect_prompt_run.
  destruct (has_empty_line (stdin st)); simpl.
  2:{ do 2 eexists. split; [reflexivity|]. split; [reflexivity|].
      split; [left; reflexivity | count_requests]. }
  destruct (prompt_of_lines (stdin st)) as [|c' prompt].
  { run_monad. simpl. do 2 eexists. split; [reflexivity|].
    split; [reflexivity|]. split; [left; reflexivity | count_requests]. }
  unfold try_except.
  match goal with
  | |- context [generate_and_save ?n ?w ?k ?p ?s] =>
      destruct (generate_and_save_run n w k p s)
        as (o & st' & -> & _ & H)
  end.
  simpl in H.
  destruct (saves nd_value w (c :: key) (c' :: prompt) (fs st)).
  - destruct H as (Hw & Hr & ->).
    destruct (stdout_encodes w 215); run_monad; simpl;
      do 2 eexists; (split; [reflexivity|]); (split; [exact Hw|]);
      (split; [count_by_requests | reflexivity]).
  - destruct H as ((e & -> & He) & Hw & Hr). rewrite He. run_monad. simpl.
    do 2 eexists. split; [reflexivity|]. split; [reflexivity|].
    split; [exact Hw|].
    destruct Hr as [[Hr _] | Hr]; count_by_requests.
Qed.




(** The same in general: when every step up to the write succeeds and the
    last message cannot be printed, the banner is stored and the exit
    status is 1. *)
Lemma run_stored_then_failed (nd_value : N -> option N) (w : world)
    (st : state) :
  stores_image nd_value w st = true ->
  stdout_encodes w 215 = false ->
  fst (run nd_value w st) = 1
  /\ banner_written nd_value (fs st) (fs (snd (run nd_value w st))).
Proof.
  intros Hs Hx. destruct (run_cases nd_value w st) as (code & st' & -> & H).
  rewrite Hs, Hx in H. destruct H as (Hw & _ & ->). auto.
Qed.

(** The specification's scenario: with [img1.png] and [img2.png] present
    and a 512 by 512 image from the provider, the run exits with status 0
    and the directory gains [img3.png], 1200 by 628. *)
Example end_to_end_third_image :
  let r := run ascii_only (sample_world None (Some (lit "secret")) true)
             (start_state [lit "Hello"; lit "World"; []] two_images) in
  fst r = 0
  /\ fs (snd r) !! lit "images"
     = Some (Directory [(lit "img1.png", Other); (lit "img2.png", Other);
                        (lit "img3.png", Picture (Image 1200 628))])
  /\ api_requests (trace (snd r)) = 1%nat.
Proof. split; [|split]; vm_compute; reflexivity. Qed.


(** * Further properties of the code *)

(** ** The pattern and the scan *)

(** X1: [pattern.match(fname)] succeeds exactly when [fname] is [prefix],
    a non-empty run of digits, [ext], and then nothing or one final
    newline; group 1 is that run of digits. *)
Theorem pattern_match_exactly (nd_value : N -> option N)
    (prefix ext fname g : str) :
  pattern_match nd_value prefix ext fname = Some g
  <-> g <> []
      /\ Forall (fun c => is_digit nd_value c = true) g
      /\ (fname = prefix ++ g ++ ext
          \/ fname = prefix ++ g ++ ext ++ [NEWLINE]).
Proof.
  rewrite pattern_match_spec. unfold ends. split.
  - intros (Hne & Hd & tail & [-> | ->] & ->); auto.
  - intros (Hne & Hd & [-> | ->]); repeat split; try assumption.
    + exists ext. auto.
    + exists (ext ++ [NEWLINE]). auto.
Qed.

(** X2: after the loop, [max_index] is at least the index of every matched
    entry, and it is 0 or the index of some matched entry. *)
Theorem scan_is_greatest_index (nd_value : N -> option N)
    (prefix ext : str) (listing : list str) :
  (forall fname g,
      fname ∈ listing -> pattern_match nd_value prefix ext fname = Some g ->
      py_int nd_value g <= scan nd_value prefix ext listing)
  /\ (scan nd_value prefix ext listing = 0
      \/ exists fname g,
           fname ∈ listing
           /\ pattern_match nd_value prefix ext fname = Some g
           /\ py_int nd_value g = scan nd_value prefix ext listing).
Proof.
  split.
  - intros fname g. apply scan_upper.
  - apply scan_attained.
Qed.

(** X3: a listing that holds every name of another one has a maximum at
    least as large: more entries never lower the next index. *)
Theorem next_index_monotone (nd_value : N -> option N)
    (prefix ext : str) (l1 l2 : list str) :
  (forall fname, fname ∈ l1 -> fname ∈ l2) ->
  scan nd_value prefix ext l1 <= scan nd_value prefix ext l2.
Proof. apply scan_le_of_incl. Qed.

Lemma next_index_monotone_witness :
  (forall fname, fname ∈ [lit "img2.png"] ->
                 fname ∈ [lit "img9.png"; lit "img2.png"])
  /\ scan ascii_only (lit "img") (lit ".png") [lit "img2.png"]
     <= scan ascii_only (lit "img") (lit ".png")
          [lit "img9.png"; lit "img2.png"].
Proof.
  assert (H : forall fname, fname ∈ [lit "img2.png"] ->
                            fname ∈ [lit "img9.png"; lit "img2.png"]).
  { intros fname Hf. apply list_elem_of_singleton in Hf. subst fname.
    right. left. }
  split; [exact H|].
  exact (next_index_monotone ascii_only (lit "img") (lit ".png") _ _ H).
Defined.

(** X4: a name formatted from an index is matched by the pattern built
    from the same prefix and extension, and its group reads back as that
    index, also when the prefix ends or the extension starts with
    digits. *)
Theorem format_name_roundtrip (nd_value : N -> option N)
    (prefix ext : str) (n : N) :
  pattern_match nd_value prefix ext (format_name prefix n ext)
  = Some (py_str n)
  /\ py_int nd_value (py_str n) = n.
Proof.
  split; [apply pattern_match_format_name | apply py_int_py_str].
Qed.

Example format_name_roundtrip_digits_around :
  pattern_match ascii_only (lit "img1") (lit "0.png")
    (format_name (lit "img1") 50 (lit "0.png")) = Some (lit "50").
Proof. vm_compute. reflexivity. Qed.

Lemma scan_snoc_next nd_value prefix ext (listing : list str) :
  scan nd_value prefix ext
    (listing ++ [next_name nd_value prefix ext listing])
  = scan nd_value prefix ext listing + 1.
Proof.
  unfold scan at 1. rewrite fold_left_app. simpl.
  fold (scan nd_value prefix ext listing). unfold scan_step, next_name.
  rewrite pattern_match_format_name, py_int_py_str. lia.
Qed.

Lemma py_str_fuel_head (fuel : nat) (n : N) :
  (N.to_nat (N.log2 n) < fuel)%nat -> 1 <= n ->
  head (py_str_fuel fuel n) <> Some 48.
Proof.
  revert n. induction fuel as [|fuel IH]; intros n Hf Hn; [lia|].
  simpl. destruct (N.ltb_spec n 10) as [Hlt|Hge].
  - simpl. intros [= E]. lia.
  - assert (Hq : 1 <= n / 10).
    { pose proof (N.div_str_pos n 10 ltac:(lia)). lia. }
    assert (Hl : (N.to_nat (N.log2 (n / 10)) < fuel)%nat).
    { pose proof (log2_div10 n Hge). lia. }
    specialize (IH (n / 10) Hl Hq).
    destruct (py_str_fuel fuel (n / 10)) as [|c t] eqn:E.
    + exfalso.
      exact (proj1 (py_str_fuel_spec (fun _ => None) fuel (n / 10) Hl) E).
    + exact IH.
Qed.

(** X5: the number in the returned name is written with ASCII digits and
    without a leading zero, whatever digits and padding the scanned names
    use. *)
Theorem next_name_no_padding (nd_value : N -> option N)
    (prefix ext : str) (listing : list str) :
  exists ds,
    next_name nd_value prefix ext listing = prefix ++ ds ++ ext
    /\ ds <> []
    /\ Forall (fun c => 48 <= c <= 57) ds
    /\ head ds <> Some 48.
Proof.
  exists (py_str (scan nd_value prefix ext listing + 1)).
  destruct (py_str_spec nd_value (scan nd_value prefix ext listing + 1))
    as (Hne & Hd & _).
  repeat split; try assumption.
  apply py_str_fuel_head; lia.
Qed.

(** ** [next_image_filename] and [save_image] on a file system *)

Ltac run_save :=
  unfold save_image, makedirs, image_save, raise_for, get_fs, put_fs,
    logger_info, logger_exception, emit, raise, try_except,
    mbind, M_bind, bind, mret, M_ret, ret.

Lemma save_image_directory_ok w img filename st entries :
  fs st !! lit "images" = Some (Directory entries) ->
  plain_name filename = true ->
  save_outcome w (lit "images") filename img = Written ->
  save_image w img filename st
  = (Return tt,
     {| stdin := stdin st;
        fs := <[lit "images" :=
                  Directory (store filename (Picture img) entries)]> (fs st);
        trace := trace st ++ [Log INFO "Image saved to %s (%sx%s)"] |}).
Proof.
  intros Hm Hp Hd. destruct st as [inp m tr]. simpl in Hm.
  run_save. set (images := lit "images") in *. clearbody images.
  simpl. rewrite Hm. simpl. rewrite Hp, Hd, Hm. reflexivity.
Qed.

Lemma save_image_absent_ok w img filename st :
  fs st !! lit "images" = None ->
  plain_name filename = true ->
  save_outcome w (lit "images") filename img = Written ->
  save_image w img filename st
  = (Return tt,
     {| stdin := stdin st;
        fs := <[lit "images" := Directory [(filename, Picture img)]]> (fs st);
        trace := trace st ++ [Log INFO "Image saved to %s (%sx%s)"] |}).
Proof.
  intros Hm Hp Hd. destruct st as [inp m tr]. simpl in Hm.
  run_save. set (images := lit "images") in *. clearbody images.
  simpl. rewrite Hm. simpl. rewrite Hp, Hd, lookup_insert_eq. simpl.
  rewrite insert_insert_eq. reflexivity.
Qed.

(** X6: the numbering counts up.  When the output directory exists and the
    write succeeds, asking for a name, saving under it and asking again
    gives the name two above the maximum of the original listing. *)
Theorem next_image_filename_counts_up (nd_value : N -> option N) (w : world)
    (img : image) (st : state) (entries : list (str * content)) :
  fs st !! lit "images" = Some (Directory entries) ->
  save_outcome w (lit "images")
    (next_name nd_value (lit "img") (lit ".png") (entries.*1)) img
  = Written ->
  fst ((filename ← next_image_filename nd_value
                      (lit "images") (lit "img") (lit ".png");
        save_image w img filename;;
        next_image_filename nd_value (lit "images") (lit "img") (lit ".png"))
         st)
  = Return (format_name (lit "img")
              (scan nd_value (lit "img") (lit ".png") (entries.*1) + 2)
              (lit ".png")).
Proof.
  intros Hm Hd. unfold mbind, M_bind, bind.
  rewrite (next_image_filename_directory _ _ _ _ _ entries Hm).
  rewrite (save_image_directory_ok _ _ _ _ entries Hm
             (default_name_plain _ _) Hd).
  erewrite next_image_filename_directory by (simpl; apply lookup_insert_eq).
  simpl. rewrite store_fresh by apply next_name_fresh.
  rewrite fmap_app. simpl. unfold next_name at 1.
  rewrite scan_snoc_next. rewrite <- N.add_assoc. reflexivity.
Qed.

Lemma next_image_filename_counts_up_witness :
  fs (start_state [] two_images) !! lit "images"
  = Some (Directory [(lit "img1.png", Other); (lit "img2.png", Other)])
  /\ save_outcome (sample_world None None false) (lit "images")
       (next_name ascii_only (lit "img") (lit ".png")
          [lit "img1.png"; lit "img2.png"]) (Image 10 10) = Written
  /\ fst ((filename ← next_image_filename ascii_only
                        (lit "images") (lit "img") (lit ".png");
           save_image (sample_world None None false) (Image 10 10) filename;;
           next_image_filename ascii_only
             (lit "images") (lit "img") (lit ".png"))
            (start_state [] two_images))
     = Return (lit "img4.png").
Proof.
  split; [reflexivity|]. split; [reflexivity|].
  rewrite (next_image_filename_counts_up ascii_only
             (sample_world None None false) (Image 10 10)
             (start_state [] two_images)
             [(lit "img1.png", Other); (lit "img2.png", Other)]
             eq_refl eq_refl).
  reflexivity.
Defined.

(** X7: the scan reserves nothing.  Unless the path is a regular file, a
    second call right after the first returns the same name and changes
    nothing more. *)
Theorem next_image_filename_twice (nd_value : N -> option N)
    (directory prefix ext : str) (st : state) :
  fs st !! directory <> Some RegularFile ->
  exists fname st1,
    next_image_filename nd_value directory prefix ext st = (Return fname, st1)
    /\ next_image_filename nd_value directory prefix ext st1
       = (Return fname, st1).
Proof.
  intros Hnf. destruct (fs st !! directory) as [[|entries]|] eqn:Hm.
  - contradiction.
  - exists (next_name nd_value prefix ext (entries.*1)), st.
    split; apply next_image_filename_directory; exact Hm.
  - do 2 eexists. split; [apply next_image_filename_absent; exact Hm|].
    erewrite next_image_filename_directory by (simpl; apply lookup_insert_eq).
    reflexivity.
Qed.

Lemma next_image_filename_twice_witness :
  fs (start_state [] two_images) !! lit "images" <> Some RegularFile
  /\ exists fname st1,
       next_image_filename ascii_only (lit "images") (lit "img") (lit ".png")
         (start_state [] two_images) = (Return fname, st1)
       /\ next_image_filename ascii_only (lit "images") (lit "img")
            (lit ".png") st1 = (Return fname, st1).
Proof.
  assert (H : fs (start_state [] two_images) !! lit "images"
              <> Some RegularFile) by discriminate.
  split; [exact H|].
  exact (next_image_filename_twice ascii_only (lit "images") (lit "img")
           (lit ".png") (start_state [] two_images) H).
Defined.

Lemma store_elem (name : str) (c : content) (entries : list (str * content)) :
  (name, c) ∈ store name c entries.
Proof.
  induction entries as [|[n c'] entries IH]; simpl; [left|].
  destruct (decide (n = name)); [left | right; exact IH].
Qed.

Lemma store_other (name n : str) (c c' : content)
    (entries : list (str * content)) :
  n <> name -> (n, c') ∈ store name c entries <-> (n, c') ∈ entries.
Proof.
  intros Hne. induction entries as [|[n0 c0] entries IH]; simpl.
  - rewrite list_elem_of_singleton. split.
    + intros [= -> _]. contradiction.
    + intros H. inversion H.
  - destruct (decide (n0 = name)) as [->|Hn0].
    + rewrite !elem_of_cons. split.
      * intros [[= -> _] | H]; [contradiction | right; exact H].
      * intros [[= -> _] | H]; [contradiction | right; exact H].
    + rewrite !elem_of_cons, IH. reflexivity.
Qed.

Lemma store_names_present (name : str) (c : content)
    (entries : list (str * content)) :
  name ∈ entries.*1 -> (store name c entries).*1 = entries.*1.
Proof.
  induction entries as [|[n c'] entries IH]; simpl; intros H.
  - inversion H.
  - destruct (decide (n = name)) as [->|Hne]; [reflexivity|].
    simpl. f_equal. apply IH.
    apply elem_of_cons in H as [H | H]; [congruence | exact H].
Qed.

Lemma truncate_other (name n : str) (c : content)
    (entries : list (str * content)) :
  n <> name -> (n, c) ∈ truncate name entries <-> (n, c) ∈ entries.
Proof.
  intros Hne. induction entries as [|[n0 c0] entries IH]; simpl.
  - reflexivity.
  - destruct (decide (n0 = name)) as [->|Hn0].
    + rewrite !elem_of_cons. split.
      * intros [[= -> _] | H]; [contradiction | right; exact H].
      * intros [[= -> _] | H]; [contradiction | right; exact H].
    + rewrite !elem_of_cons, IH. reflexivity.
Qed.

Lemma truncate_names (name : str) (entries : list (str * content)) :
  (truncate name entries).*1 = entries.*1.
Proof.
  induction entries as [|[n c] entries IH]; simpl; [reflexivity|].
  destruct (decide (n = name)); simpl; [reflexivity|].
  f_equal. exact IH.
Qed.



(** X9: for a plain filename, when [images] is not a regular file and the
    write succeeds, [save_image] returns, the directory then holds the
    image under that name, every entry of another name is kept as it was,
    and a name that was already present is replaced rather than listed
    twice. *)
Theorem save_image_stores_entry (w : world) (img : image) (filename : str)
    (st : state) :
  plain_name filename = true ->
  fs st !! lit "images" <> Some RegularFile ->
  save_outcome w (lit "images") filename img = Written ->
  let before := entries_of (fs st) (lit "images") in
  let after := entries_of (fs (snd (save_image w img filename st)))
                 (lit "images") in
  fst (save_image w img filename st) = Return tt
  /\ (filename, Picture img) ∈ after
  /\ (forall n c, n <> filename -> (n, c) ∈ after <-> (n, c) ∈ before)
  /\ (filename ∈ before.*1 -> after.*1 = before.*1).
Proof.
  intros Hn Hnf Hd. unfold entries_of.
  destruct (fs st !! lit "images") as [[|entries]|] eqn:Hm.
  - contradiction.
  - rewrite (save_image_directory_ok _ _ _ _ entries Hm Hn Hd). simpl.
    rewrite lookup_insert_eq.
    split; [reflexivity|]. split; [apply store_elem|].
    split; [intros n c Hne; apply store_other, Hne | apply store_names_present].
  - rewrite (save_image_absent_ok _ _ _ _ Hm Hn Hd). simpl.
    rewrite lookup_insert_eq.
    split; [reflexivity|]. split; [left|].
    split; [|intros H; inversion H].
    intros n c Hne. rewrite list_elem_of_singleton. split.
    + intros [= -> _]. contradiction.
    + intros H. inversion H.
Qed.

Lemma save_image_stores_entry_witness :
  plain_name (lit "img2.png") = true
  /\ fs (start_state [] two_images) !! lit "images" <> Some RegularFile
  /\ save_outcome (sample_world None None false) (lit "images")
       (lit "img2.png") (Image 10 10) = Written
  /\ (lit "img2.png", Picture (Image 10 10))
     ∈ entries_of
         (fs (snd (save_image (sample_world None None false) (Image 10 10)
                     (lit "img2.png") (start_state [] two_images))))
         (lit "images").
Proof.
  assert (H : fs (start_state [] two_images) !! lit "images"
              <> Some RegularFile) by discriminate.
  split; [reflexivity|]. split; [exact H|]. split; [reflexivity|].
  pose proof (save_image_stores_entry (sample_world None None false)
                (Image 10 10) (lit "img2.png") (start_state [] two_images)
                eq_refl H eq_refl) as T.
  cbv zeta in T. destruct T as (_ & T & _). exact T.
Defined.



(** A filename with a separator takes the write out of [images]: the path
    handed to PIL is the joined one. *)
Example os_path_join_examples :
  os_path_join (lit "images") (lit "img1.png") = lit "images/img1.png"
  /\ os_path_join (lit "images") (lit "../notes.png")
     = lit "images/../notes.png"
  /\ os_path_join (lit "images") (lit "/tmp/x.png") = lit "/tmp/x.png"
  /\ plain_name (lit "../notes.png") = false
  /\ plain_name (lit "img1.png") = true.
Proof. repeat split. Qed.

(** ** [generate_image] *)

Lemma first_image_skips_text (texts rest : list part) (st : state) :
  Forall (fun p => p = TextPart) texts ->
  first_image (texts ++ rest) st = first_image rest st.
Proof.
  intros H. induction H as [|p texts -> _ IH]; [reflexivity | exact IH].
Qed.

Lemma first_image_all_text (parts : list part) (st : state) :
  Forall (fun p => p = TextPart) parts ->
  first_image parts st = (Raise ValueError, st).
Proof.
  intros H. rewrite <- (app_nil_r parts), first_image_skips_text by exact H.
  reflexivity.
Qed.

Ltac run_generate :=
  unfold generate_image, logger_info, logger_exception, emit, raise,
    try_except, mbind, M_bind, bind, mret, M_ret, ret; simpl.

(** X11: the first part that carries inline data decides.  When the parts
    before it are text and it decodes, [generate_image] returns that image,
    whatever parts follow. *)
Theorem generate_image_first_inline_part (w : world) (gen : generator)
    (prompt : str) (st : state) (texts rest : list part) (img : image) :
  respond w (gen_api_key gen) prompt
  = Parts (texts ++ InlineData (Some img) :: rest) ->
  Forall (fun p => p = TextPart) texts ->
  generate_image w gen prompt st
  = (Return img,
     {| stdin := stdin st; fs := fs st;
        trace := trace st
          ++ [Log INFO "Sending image generation request with prompt: %s";
              ApiRequest (gen_api_key gen) prompt;
              Log INFO "Received response from Gemini API.";
              Log INFO "Image generated successfully (original size: %sx%s)."] |}).
Proof.
  intros Hr Ht. destruct st as [inp m tr]. run_generate. rewrite Hr.
  rewrite first_image_skips_text by exact Ht. simpl.
  rewrite <- !app_assoc. reflexivity.
Qed.

Lemma generate_image_first_inline_part_witness :
  respond (sample_world None None false) [] (lit "a cat")
  = Parts ([TextPart] ++ InlineData (Some (Image 512 512)) :: [])
  /\ Forall (fun p => p = TextPart) [TextPart]
  /\ fst (generate_image (sample_world None None false)
            {| gen_api_key := []; model_name := [] |} (lit "a cat")
            (start_state [] ∅))
     = Return (Image 512 512).
Proof.
  assert (H : Forall (fun p => p = TextPart) [TextPart])
    by (constructor; [reflexivity | constructor]).
  split; [reflexivity|]. split; [exact H|].
  rewrite (generate_image_first_inline_part (sample_world None None false)
             {| gen_api_key := []; model_name := [] |} (lit "a cat")
             (start_state [] ∅) [TextPart] [] (Image 512 512) eq_refl H).
  reflexivity.
Defined.

(** X12: when the first part with inline data does not decode, the call
    raises, even if a later part holds an image that would decode. *)
Theorem generate_image_undecodable_first (w : world) (gen : generator)
    (prompt : str) (st : state) (texts rest : list part) :
  respond w (gen_api_key gen) prompt
  = Parts (texts ++ InlineData None :: rest) ->
  Forall (fun p => p = TextPart) texts ->
  generate_image w gen prompt st
  = (Raise ExternalError,
     {| stdin := stdin st; fs := fs st;
        trace := trace st
          ++ [Log INFO "Sending image generation request with prompt: %s";
              ApiRequest (gen_api_key gen) prompt;
              Log INFO "Received response from Gemini API.";
              Log ERROR "Error during image generation: %s"] |}).
Proof.
  intros Hr Ht. destruct st as [inp m tr]. run_generate. rewrite Hr.
  rewrite first_image_skips_text by exact Ht. simpl.
  rewrite <- !app_assoc. reflexivity.
Qed.

Lemma generate_image_undecodable_first_witness :
  respond (fixed_world (Parts ([TextPart] ++ InlineData None
                                 :: [InlineData (Some (Image 512 512))]))
             true) [] (lit "a cat")
  = Parts ([TextPart] ++ InlineData None
             :: [InlineData (Some (Image 512 512))])
  /\ Forall (fun p => p = TextPart) [TextPart]
  /\ fst (generate_image
            (fixed_world (Parts ([TextPart] ++ InlineData None
                                   :: [InlineData (Some (Image 512 512))]))
               true)
            {| gen_api_key := []; model_name := [] |} (lit "a cat")
            (start_state [] ∅))
     = Raise ExternalError.
Proof.
  assert (H : Forall (fun p => p = TextPart) [TextPart])
    by (constructor; [reflexivity | constructor]).
  split; [reflexivity|]. split; [exact H|].
  rewrite (generate_image_undecodable_first
             (fixed_world (Parts ([TextPart] ++ InlineData None
                                    :: [InlineData (Some (Image 512 512))]))
                true)
             {| gen_api_key := []; model_name := [] |} (lit "a cat")
             (start_state [] ∅) [TextPart]
             [InlineData (Some (Image 512 512))] eq_refl H).
  reflexivity.
Defined.

(** X13: a response whose parts carry no inline data makes
    [generate_image] raise [ValueError] after logging it; the error is not
    swallowed. *)
Theorem generate_image_no_image (w : world) (gen : generator)
    (prompt : str) (st : state) (parts : list part) :
  respond w (gen_api_key gen) prompt = Parts parts ->
  Forall (fun p => p = TextPart) parts ->
  generate_image w gen prompt st
  = (Raise ValueError,
     {| stdin := stdin st; fs := fs st;
        trace := trace st
          ++ [Log INFO "Sending image generation request with prompt: %s";
              ApiRequest (gen_api_key gen) prompt;
              Log INFO "Received response from Gemini API.";
              Log ERROR "Error during image generation: %s"] |}).
Proof.
  intros Hr Ht. destruct st as [inp m tr]. run_generate. rewrite Hr.
  rewrite first_image_all_text by exact Ht. simpl.
  rewrite <- !app_assoc. reflexivity.
Qed.

Lemma generate_image_no_image_witness :
  respond (fixed_world (Parts [TextPart; TextPart]) true) [] (lit "a cat")
  = Parts [TextPart; TextPart]
  /\ Forall (fun p => p = TextPart) [TextPart; TextPart]
  /\ fst (generate_image (fixed_world (Parts [TextPart; TextPart]) true)
            {| gen_api_key := []; model_name := [] |} (lit "a cat")
            (start_state [] ∅))
     = Raise ValueError.
Proof.
  assert (H : Forall (fun p => p = TextPart) [TextPart; TextPart])
    by (repeat constructor).
  split; [reflexivity|]. split; [exact H|].
  rewrite (generate_image_no_image
             (fixed_world (Parts [TextPart; TextPart]) true)
             {| gen_api_key := []; model_name := [] |} (lit "a cat")
             (start_state [] ∅) [TextPart; TextPart] eq_refl H).
  reflexivity.
Defined.

(** X14: every call of [generate_image] sends exactly one request, with
    the generator's key and the given prompt, and leaves the file system
    and standard input alone, whether it returns or raises. *)
Theorem generate_image_one_request (w : world) (gen : generator)
    (prompt : str) (st : state) :
  let st' := snd (generate_image w gen prompt st) in
  requests_of (trace st')
  = requests_of (trace st) ++ [(gen_api_key gen, prompt)]
  /\ fs st' = fs st
  /\ stdin st' = stdin st.
Proof.
  destruct st as [inp m tr]. run_generate.
  destruct (respond w (gen_api_key gen) prompt) as [| |parts]; simpl.
  1,2: rewrite !requests_of_app; simpl; rewrite !app_nil_r;
       split; [reflexivity | split; reflexivity].
  match goal with
  | |- context [first_image ?ps ?s] =>
      destruct (first_image_run ps s) as [(img & ->) | (e & He & ->)]
  end; simpl.
  - rewrite !requests_of_app. simpl. rewrite !app_nil_r.
    split; [reflexivity | split; reflexivity].
  - rewrite He. simpl. rewrite !requests_of_app. simpl. rewrite !app_nil_r.
    split; [reflexivity | split; reflexivity].
Qed.

(** ** The run, in more detail *)

(** X15: a run sends at most one request.  When it sends one, the request
    carries the non-empty key that was loaded and the non-empty prompt
    that was collected; when it sends none, the file system is left as it
    was. *)
Theorem run_request_content (nd_value : N -> option N) (w : world)
    (st : state) :
  (requests_of (trace (snd (run nd_value w st))) = requests_of (trace st)
   /\ fs (snd (run nd_value w st)) = fs st)
  \/ exists key prompt,
       load_api_key w = Some key /\ key <> []
       /\ fst (collect_prompt w st) = Return prompt /\ prompt <> []
       /\ requests_of (trace (snd (run nd_value w st)))
          = requests_of (trace st) ++ [(key, prompt)].
Proof.
  remember (run nd_value w st) as r eqn:E. unfold run, main in E.
  destruct (load_api_key w) as [[|k key]|] eqn:Hk; simpl in E.
  1,3: left; subst r; run_monad; solve_requests.
  unfold mbind at 1, M_bind at 1, bind at 1 in E.
  rewrite collect_prompt_run in E |- *.
  destruct (has_empty_line (stdin st)).
  2:{ left. subst r. solve_requests. }
  destruct (prompt_of_lines (stdin st)) as [|c prompt] eqn:Hp.
  { left. subst r. run_monad. solve_requests. }
  unfold try_except in E.
  match type of E with
  | context [generate_and_save ?n ?w ?k ?p ?s] =>
      destruct (generate_and_save_run n w k p s)
        as (o & st' & E' & _ & H)
  end.
  rewrite E' in E. simpl in H.
  assert (Hreq : (requests_of (trace st')
                  = requests_of
                      (trace st ++ Stdout ENTER_PROMPT
                         :: repeat Input
                              (S (length (lines_until_empty (stdin st)))))
                  /\ fs st' = fs st)
                 \/ requests_of (trace st')
                    = requests_of
                        (trace st ++ Stdout ENTER_PROMPT
                           :: repeat Input
                                (S (length (lines_until_empty (stdin st)))))
                      ++ [(k :: key, c :: prompt)]).
  { destruct (saves nd_value w (k :: key) (c :: prompt) (fs st)).
    - right. apply H.
    - apply H. }
  clear H.
  assert (Hfinal : forall st'' : state,
             trace st'' = trace st'
             \/ trace st'' = trace st'
                  ++ [Log ERROR "Image generation process failed: %s"] ->
             fs st'' = fs st' ->
             (requests_of (trace st'') = requests_of (trace st)
              /\ fs st'' = fs st)
             \/ exists key0 prompt0,
                  Some (k :: key) = Some key0 /\ key0 <> []
                  /\ Return (A := str) (c :: prompt) = Return prompt0
                  /\ prompt0 <> []
                  /\ requests_of (trace st'')
                     = requests_of (trace st) ++ [(key0, prompt0)]).
  { intros st'' Ht Hf.
    assert (Hq : requests_of (trace st'') = requests_of (trace st')).
    { destruct Ht as [-> | ->]; [reflexivity|].
      rewrite requests_of_app. simpl. apply app_nil_r. }
    rewrite Hq, Hf. destruct Hreq as [[Hr Hfs] | Hr].
    - left. split; [|exact Hfs].
      rewrite Hr, requests_of_app. simpl. rewrite requests_of_inputs.
      apply app_nil_r.
    - right. exists (k :: key), (c :: prompt).
      repeat split; try discriminate.
      rewrite Hr, requests_of_app. simpl. rewrite requests_of_inputs.
      rewrite app_nil_r. reflexivity. }
  destruct o as [[]|e]; simpl in E.
  - subst r. apply Hfinal; [left|]; reflexivity.
  - destruct (is_Exception e); revert E; run_monad; simpl; intros ->.
    + apply Hfinal; [right|]; reflexivity.
    + apply Hfinal; [left|]; reflexivity.
Qed.

(** *** The prompt *)

Lemma lstrip_head (s : str) (c : N) :
  head (lstrip s) = Some c -> is_space c = false.
Proof.
  induction s as [|d s IH]; simpl; [discriminate|].
  destruct (is_space d) eqn:Hd; [exact IH|].
  simpl. intros [= <-]. exact Hd.
Qed.

Lemma lstrip_last (s : str) (c : N) :
  last (lstrip s) = Some c -> last s = Some c.
Proof.
  induction s as [|d s IH]; simpl; [discriminate|].
  destruct (is_space d); [|auto].
  intros H. specialize (IH H). destruct s; [discriminate | exact IH].
Qed.

Lemma last_rev_head {A} (l : list A) : last (rev l) = head l.
Proof.
  destruct l as [|a l]; [reflexivity|]. simpl. apply last_snoc.
Qed.

Lemma head_rev_last {A} (l : list A) : head (rev l) = last l.
Proof.
  rewrite <- (rev_involutive l) at 2. symmetry. apply last_rev_head.
Qed.

Lemma strip_trimmed (s : str) (c : N) :
  head (strip s) = Some c \/ last (strip s) = Some c -> is_space c = false.
Proof.
  unfold strip. rewrite head_rev_last, last_rev_head. intros [H | H].
  - apply lstrip_last in H. rewrite last_rev_head in H.
    exact (lstrip_head _ _ H).
  - exact (lstrip_head _ _ H).
Qed.

(** X16: a collected prompt neither starts nor ends with a whitespace
    character. *)
Theorem collected_prompt_is_trimmed (w : world) (st : state)
    (prompt : str) (c : N) :
  fst (collect_prompt w st) = Return prompt ->
  head prompt = Some c \/ last prompt = Some c ->
  is_space c = false.
Proof.
  rewrite collect_prompt_run.
  destruct (has_empty_line (stdin st)); [|discriminate].
  simpl. intros [= <-]. apply strip_trimmed.
Qed.

Lemma collected_prompt_is_trimmed_witness :
  fst (collect_prompt (sample_world None None false)
         (start_state [lit "  a cat "; lit " "; []] ∅))
  = Return (lit "a cat")
  /\ (head (lit "a cat") = Some 97 \/ last (lit "a cat") = Some 97)
  /\ is_space 97 = false.
Proof.
  split; [reflexivity|]. split; [left; reflexivity|].
  exact (collected_prompt_is_trimmed (sample_world None None false)
           (start_state [lit "  a cat "; lit " "; []] ∅) (lit "a cat") 97
           eq_refl (or_introl eq_refl)).
Defined.

Lemma no_empty_line_all (inp : list str) :
  has_empty_line inp = false ->
  lines_until_empty inp = inp /\ after_empty_line inp = [].
Proof.
  induction inp as [|line inp IH]; simpl; [auto|].
  destruct line as [|c line]; [discriminate|].
  intros H. destruct (IH H) as [-> ->]. auto.
Qed.


(** X17: with a key present, standard input that ends before any empty
    line aborts the run with status 1: every line has been read, no
    request has been sent and the file system is as it was. *)
Theorem run_eof_aborts (nd_value : N -> option N) (w : world) (st : state) :
  key_missing (load_api_key w) = false ->
  [] ∉ stdin st ->
  run nd_value w st
  = (1, {| stdin := []; fs := fs st;
           trace := trace st
             ++ Stdout ENTER_PROMPT
             :: repeat Input (S (length (stdin st))) |}).
Proof.
  intros Hk He. unfold run, main. rewrite Hk.
  unfold mbind at 1, M_bind at 1, bind at 1. rewrite collect_prompt_run.
  destruct (has_empty_line (stdin st)) eqn:E.
  - apply has_empty_line_spec in E. contradiction.
  - destruct (no_empty_line_all _ E) as [-> ->]. reflexivity.
Qed.

Lemma run_eof_aborts_witness :
  key_missing (load_api_key (fixed_world NoParts true)) = false
  /\ ([] ∉ stdin (start_state [lit "a cat"] two_images))
  /\ fst (run ascii_only (fixed_world NoParts true)
            (start_state [lit "a cat"] two_images)) = 1
  /\ requests_of
       (trace (snd (run ascii_only (fixed_world NoParts true)
                      (start_state [lit "a cat"] two_images)))) = [].
Proof.
  assert (H : [] ∉ stdin (start_state [lit "a cat"] two_images)).
  { simpl. intros Hin. apply list_elem_of_singleton in Hin. discriminate. }
  split; [reflexivity|]. split; [exact H|].
  rewrite (run_eof_aborts ascii_only (fixed_world NoParts true)
             (start_state [lit "a cat"] two_images) eq_refl H).
  split; reflexivity.
Defined.



(** *** Order of the steps *)

(** X19: when the client cannot be constructed, the run exits with status
    1 without sending a request and without touching the file system. *)
Theorem run_client_failure (nd_value : N -> option N) (w : world)
    (st : state) (key prompt : str) :
  load_api_key w = Some key -> key <> [] ->
  fst (collect_prompt w st) = Return prompt -> prompt <> [] ->
  client_ok w key = false ->
  fst (run nd_value w st) = 1
  /\ requests_of (trace (snd (run nd_value w st))) = requests_of (trace st)
  /\ fs (snd (run nd_value w st)) = fs st.
Proof.
  intros Hk Hkey Hp Hprompt Hc.
  remember (run nd_value w st) as r eqn:E. unfold run, main in E.
  rewrite Hk in E. destruct key as [|k key]; [contradiction|]. simpl in E.
  unfold mbind at 1, M_bind at 1, bind at 1 in E.
  rewrite collect_prompt_run in E, Hp.
  destruct (has_empty_line (stdin st)); [|discriminate].
  simpl in Hp. injection Hp as Hp. rewrite Hp in E.
  destruct prompt as [|c prompt]; [contradiction|].
  unfold generate_and_save in E. rewrite print_generating in E.
  revert E. run_monad. simpl.
  destruct (stdout_encodes w 8230); simpl; rewrite ?Hc; simpl; intros ->;
    solve_requests.
Qed.

Lemma run_client_failure_witness :
  load_api_key no_client_world = Some (lit "bad")
  /\ lit "bad" <> []
  /\ fst (collect_prompt no_client_world (start_state [lit "a cat"; []] ∅))
     = Return (lit "a cat")
  /\ lit "a cat" <> []
  /\ client_ok no_client_world (lit "bad") = false
  /\ fst (run ascii_only no_client_world
            (start_state [lit "a cat"; []] ∅)) = 1.
Proof.
  assert (H1 : lit "bad" <> []) by discriminate.
  assert (H2 : lit "a cat" <> []) by discriminate.
  split; [reflexivity|]. split; [exact H1|]. split; [reflexivity|].
  split; [exact H2|]. split; [reflexivity|].
  exact (proj1 (run_client_failure ascii_only no_client_world
                  (start_state [lit "a cat"; []] ∅) (lit "bad") (lit "a cat")
                  eq_refl H1 eq_refl H2 eq_refl)).
Defined.

(** X20: the output directory is looked at only after the provider has
    answered.  On a standard output that can print the first message of
    the [try] block, when [images] is a regular file and the provider
    returns an image, the run sends its request, then fails with status 1
    and leaves the file system as it was. *)
Theorem run_regular_file_after_request (nd_value : N -> option N)
    (w : world) (st : state) (key prompt : str)
    (texts rest : list part) (img : image) :
  load_api_key w = Some key -> key <> [] ->
  fst (collect_prompt w st) = Return prompt -> prompt <> [] ->
  stdout_encodes w 8230 = true ->
  client_ok w key = true ->
  respond w key prompt = Parts (texts ++ InlineData (Some img) :: rest) ->
  Forall (fun p => p = TextPart) texts ->
  fs st !! lit "images" = Some RegularFile ->
  fst (run nd_value w st) = 1
  /\ requests_of (trace (snd (run nd_value w st)))
     = requests_of (trace st) ++ [(key, prompt)]
  /\ fs (snd (run nd_value w st)) = fs st.
Proof.
  intros Hk Hkey Hp Hprompt Hx Hc Hr Ht Hm.
  remember (run nd_value w st) as r eqn:E. unfold run, main in E.
  rewrite Hk in E. destruct key as [|k key]; [contradiction|]. simpl in E.
  unfold mbind at 1, M_bind at 1, bind at 1 in E.
  rewrite collect_prompt_run in E, Hp.
  destruct (has_empty_line (stdin st)); [|discriminate].
  simpl in Hp. injection Hp as Hp. rewrite Hp in E.
  destruct prompt as [|c prompt]; [contradiction|].
  unfold generate_and_save in E. rewrite print_generating, Hx in E.
  revert E. run_monad. simpl. rewrite Hc. simpl. rewrite Hr.
  rewrite first_image_skips_text by exact Ht. simpl.
  destruct (resize_ok w img); simpl; rewrite ?Hm; simpl; intros ->;
    solve_requests.
Qed.

Lemma run_regular_file_after_request_witness :
  load_api_key (sample_world (Some (lit "secret")) None false)
  = Some (lit "secret")
  /\ fst (collect_prompt (sample_world (Some (lit "secret")) None false)
            (start_state [lit "a cat"; []] {[ lit "images" := RegularFile ]}))
     = Return (lit "a cat")
  /\ stdout_encodes (sample_world (Some (lit "secret")) None false) 8230
     = true
  /\ fs (start_state [lit "a cat"; []] {[ lit "images" := RegularFile ]})
       !! lit "images" = Some RegularFile
  /\ fst (run ascii_only (sample_world (Some (lit "secret")) None false)
            (start_state [lit "a cat"; []]
               {[ lit "images" := RegularFile ]})) = 1
  /\ requests_of
       (trace (snd (run ascii_only
                      (sample_world (Some (lit "secret")) None false)
                      (start_state [lit "a cat"; []]
                         {[ lit "images" := RegularFile ]}))))
     = [(lit "secret", lit "a cat")].
Proof.
  assert (H1 : lit "secret" <> []) by discriminate.
  assert (H2 : lit "a cat" <> []) by discriminate.
  assert (H3 : Forall (fun p => p = TextPart) [TextPart])
    by (constructor; [reflexivity | constructor]).
  assert (H4 : fs (start_state [lit "a cat"; []]
                     {[ lit "images" := RegularFile ]})
                 !! lit "images" = Some RegularFile) by reflexivity.
  split; [reflexivity|]. split; [reflexivity|]. split; [reflexivity|].
  split; [exact H4|].
  destruct (run_regular_file_after_request ascii_only
              (sample_world (Some (lit "secret")) None false)
              (start_state [lit "a cat"; []]
                 {[ lit "images" := RegularFile ]})
              (lit "secret") (lit "a cat") [TextPart] [] (Image 512 512)
              eq_refl H1 eq_refl H2 eq_refl eq_refl eq_refl H3 H4)
    as (T1 & T2 & _).
  split; [exact T1 | exact T2].
Defined.

(** X21: a GEMINI_API_KEY that is set but empty in the process
    environment is not replaced by the key in the credential file: the run
    stops with the missing-key error and status 1 before reading any
    input. *)
Theorem empty_variable_shadows_file (nd_value : N -> option N) (w : world)
    (st : state) :
  environ_key w = Some [] ->
  run nd_value w st
  = (1, {| stdin := stdin st; fs := fs st;
           trace := trace st
             ++ [Log ERROR "GEMINI_API_KEY not found in GEMINI_API_KEY.env. Please add it and try again."] |}).
Proof.
  intros H. unfold run, main, load_api_key. rewrite H. reflexivity.
Qed.

Lemma empty_variable_shadows_file_witness :
  environ_key (sample_world (Some []) (Some (lit "secret")) true) = Some []
  /\ dotenv_file (sample_world (Some []) (Some (lit "secret")) true)
     = Some (Some (lit "secret"))
  /\ fst (run ascii_only (sample_world (Some []) (Some (lit "secret")) true)
            (start_state [lit "a cat"; []] ∅)) = 1.
Proof.
  split; [reflexivity|]. split; [reflexivity|].
  rewrite (empty_variable_shadows_file ascii_only
             (sample_world (Some []) (Some (lit "secret")) true)
             (start_state [lit "a cat"; []] ∅) eq_refl).
  reflexivity.
Defined.

(** *** The scan and the series *)

(** X22: when no entry is a name of the series followed by one newline,
    the returned name is [prefix], the decimal text of one more than the
    greatest number among the entries that are exactly [prefix], digits,
    [ext], and [ext]; with no such entry the number is 1. *)
Theorem next_name_agrees_with_series (nd_value : N -> option N)
    (prefix ext : str) (listing : list str) :
  no_newline_twin nd_value prefix ext listing ->
  next_name nd_value prefix ext listing
  = prefix ++ py_str (series_max nd_value prefix ext listing + 1) ++ ext.
Proof. apply next_name_series_next. Qed.

Lemma next_name_agrees_with_series_witness :
  no_newline_twin ascii_only (lit "img") (lit ".png")
    [lit "img1.png"; lit "img5.png"; lit "notes.txt"]
  /\ series_max ascii_only (lit "img") (lit ".png")
       [lit "img1.png"; lit "img5.png"; lit "notes.txt"] = 5
  /\ next_name ascii_only (lit "img") (lit ".png")
       [lit "img1.png"; lit "img5.png"; lit "notes.txt"] = lit "img6.png".
Proof.
  assert (H : no_newline_twin ascii_only (lit "img") (lit ".png")
                [lit "img1.png"; lit "img5.png"; lit "notes.txt"]).
  { intros fname fname' g Hin _ E.
    apply (f_equal last) in E. rewrite last_snoc in E.
    repeat (apply elem_of_cons in Hin as [-> | Hin]; [discriminate|]).
    inversion Hin. }
  split; [exact H|]. split; [reflexivity|].
  rewrite (next_name_agrees_with_series ascii_only (lit "img") (lit ".png")
             [lit "img1.png"; lit "img5.png"; lit "notes.txt"] H).
  reflexivity.
Defined.
